(** * Harmonious: the acoustic FSK codec (encoder, decoder, pause control)

    A shallow embedding of [src/utils/audioCodec.ts] (the slow "whale"
    profile) and of the codec half of [src/utils/arduinoService.ts] (the
    fast profile).  The two files hold the same functions over different
    constants; the embedding keeps one definition per source function, taken
    over a [Config] record that carries the constants of a profile.  The
    serial service of [src/utils/arduinoService.ts], the class
    [ArduinoService], follows the codec.

    Conventions.
    - JavaScript numbers that hold frequencies and audio-clock times are
      rationals ([Q]): the codec adds, subtracts, multiplies, divides and
      compares them, all of which is exact there; the rounding of IEEE
      doubles is not modelled.  [Date.now()] readings are integers ([Z],
      milliseconds), passed in with each tick.
    - Characters are [ascii], a text is a [string] of them; every key of
      [CHAR_FREQUENCIES] is ASCII.
    - Module-level [let] variables become the fields of a state record that
      each function takes and returns.
    - Web Audio nodes live in a heap (a list indexed by node handle), since
      [activeOscillators] aliases the nodes of the audio graph.
    - An [async] function runs from its call to its end with nothing else
      in between; the promise of [encodeText] is described by how it
      settles. *)

From stdpp Require Import base list.
From Stdlib Require Import ZArith QArith Qabs String Ascii List Bool Lia Lqa
  DecimalString.
Import ListNotations.

Local Open Scope Z_scope.

(** ** JavaScript primitives *)

Definition Qltb (a b : Q) : bool :=
  match Qcompare a b with Lt => true | _ => false end.

Definition Qgtb (a b : Q) : bool := Qltb b a.
Definition Qleb (a b : Q) : bool := negb (Qltb b a).
Definition Qgeb (a b : Q) : bool := negb (Qltb a b).

Definition ascii_eqb (a b : ascii) : bool := Ascii.eqb a b.

(** [String.prototype.toUpperCase] on one ASCII character.  On ASCII text
    the method works character by character, as [toUpperCase] below; outside
    ASCII it does not (it turns a sharp s into two letters), and such text is
    outside the model: the properties that compare a text with what is sent
    take the text to be made of supported characters or of ASCII ones. *)
Definition toUpperCase_char (c : ascii) : ascii :=
  let n := nat_of_ascii c in
  if (andb (Nat.leb 97 n) (Nat.leb n 122)) then ascii_of_nat (n - 32) else c.

Fixpoint toUpperCase (s : string) : string :=
  match s with
  | EmptyString => EmptyString
  | String c r => String (toUpperCase_char c) (toUpperCase r)
  end.

(** [text.split('')] *)
Definition split_chars (s : string) : list ascii := list_ascii_of_string s.

Definition str1 (c : ascii) : string := String c EmptyString.

(** The double-quote character, key of the fast table and member of the
    punctuation class. *)
Definition dquote : ascii := ascii_of_nat 34.

(** [Object.entries] of an object literal whose keys are one character long:
    integer-like keys (the digits) come first in ascending order, the other
    keys follow in insertion order. *)
Definition isDigitKey (c : ascii) : bool :=
  let n := nat_of_ascii c in andb (Nat.leb 48 n) (Nat.leb n 57).

Definition digitKeys : list ascii :=
  ["0"; "1"; "2"; "3"; "4"; "5"; "6"; "7"; "8"; "9"]%char.

Definition Object_entries {V : Type} (o : list (ascii * V)) : list (ascii * V) :=
  flat_map (fun d => List.filter (fun e => ascii_eqb (fst e) d) o) digitKeys
  ++ List.filter (fun e => negb (isDigitKey (fst e))) o.

(** Property read [o[k]]: [None] stands for [undefined]. *)
Fixpoint Object_get {V : Type} (o : list (ascii * V)) (k : ascii) : option V :=
  match o with
  | [] => None
  | (k', v) :: r => if ascii_eqb k' k then Some v else Object_get r k
  end.

(** ** Constants *)

Definition MINIMUM_VALID_FREQUENCY : Z := 400.
Definition MAXIMUM_VALID_FREQUENCY : Z := 8300.
Definition FREQUENCY_TOLERANCE : Z := 45.
Definition SIGNAL_THRESHOLD : Z := 135.

(** The constants in which the two profiles differ.  [recentWindow] and
    [timeoutCeiling] are literals in the source ([2000]/[450] in
    [shouldAddCharacter], [50000]/[15000] in [decodeAudio]); so are the
    envelope parameters of [playTone]: [fadeTime] is
    [Math.min(0.1, duration / 3)] with exponential ramps down to [0.01] in
    [audioCodec.ts], [Math.min(0.004, duration / 18)] with linear ramps down
    to [0] in [arduinoService.ts].  [pauseControl] tells whether the profile
    has the pause state ([isTransmissionPaused], [activeOscillators], ...):
    only [audioCodec.ts] declares and updates it. *)
Record Config : Type := {
  START_FREQUENCY : Z;
  END_FREQUENCY : Z;
  START_MARKER_DURATION : Q;
  END_MARKER_DURATION : Q;
  CHARACTER_DURATION : Q;
  CHARACTER_GAP : Q;
  VOLUME : Q;
  USE_PARALLEL_TONES : bool;
  PARALLEL_TONE_OFFSET : Z;
  PARALLEL_TONE_VOLUME : Q;
  DEBOUNCE_TIME : Z;
  CHARACTER_LOCKOUT_TIME : Z;
  recentWindow : Z;
  timeoutCeiling : Z;
  markerFadeLimit : Q;
  markerFadeDivisor : Q;
  markerExponential : bool;
  pauseControl : bool;
  CHAR_FREQUENCIES : list (ascii * Z)
}.

(** [audioCodec.ts] *)
Definition whale : Config := {|
  START_FREQUENCY := 1000;
  END_FREQUENCY := 800;
  START_MARKER_DURATION := 15 # 10;
  END_MARKER_DURATION := 15 # 10;
  CHARACTER_DURATION := 12 # 10;
  CHARACTER_GAP := 5 # 10;
  VOLUME := 85 # 100;
  USE_PARALLEL_TONES := false;
  PARALLEL_TONE_OFFSET := 75;
  PARALLEL_TONE_VOLUME := 9 # 10;
  DEBOUNCE_TIME := 350;
  CHARACTER_LOCKOUT_TIME := 1800;
  recentWindow := 2000;
  timeoutCeiling := 50000;
  markerFadeLimit := 1 # 10;
  markerFadeDivisor := 3;
  markerExponential := true;
  pauseControl := true;
  CHAR_FREQUENCIES :=
    [(" ", 900);
     ("A", 500); ("B", 600); ("C", 700); ("D", 1100); ("E", 1200);
     ("F", 1300); ("G", 1400); ("H", 1500); ("I", 1600); ("J", 1700);
     ("K", 1800); ("L", 1900); ("M", 2000); ("N", 2100); ("O", 2200);
     ("P", 2300); ("Q", 2400); ("R", 2500); ("S", 2600); ("T", 2700);
     ("U", 2800); ("V", 2900); ("W", 3000); ("X", 3100); ("Y", 3200);
     ("Z", 3300); ("*", 5000)]%char
|}.

(** The codec of [arduinoService.ts] *)
Definition fast : Config := {|
  START_FREQUENCY := 2500;
  END_FREQUENCY := 2700;
  START_MARKER_DURATION := 12 # 100;
  END_MARKER_DURATION := 12 # 100;
  CHARACTER_DURATION := 7 # 100;
  CHARACTER_GAP := 3 # 100;
  VOLUME := 1;
  USE_PARALLEL_TONES := true;
  PARALLEL_TONE_OFFSET := 35;
  PARALLEL_TONE_VOLUME := 75 # 100;
  DEBOUNCE_TIME := 75;
  CHARACTER_LOCKOUT_TIME := 120;
  recentWindow := 450;
  timeoutCeiling := 15000;
  markerFadeLimit := 4 # 1000;
  markerFadeDivisor := 18;
  markerExponential := false;
  pauseControl := false;
  CHAR_FREQUENCIES :=
    [(" ", 900);
     ("!", 1300); ("@", 1400); ("#", 1500); ("$", 1600); ("%", 1700);
     ("^", 1800); ("&", 1900); ("*", 2000);
     ("(", 2100); (")", 2200); ("-", 2300); ("_", 2400); ("+", 2600);
     ("=", 2800); ("{", 2900); ("}", 3000);
     ("[", 3100); ("]", 3200); ("|", 3300); ("\", 3400); (":", 3500);
     (";", 3600); (dquote, 3700); ("'", 3800);
     ("<", 3900); (">", 4000); (",", 4100); (".", 4200); ("/", 4300);
     ("?", 4400); ("`", 4500); ("~", 4600);
     ("0", 4700); ("1", 4800); ("2", 4900); ("3", 5000); ("4", 5100);
     ("5", 5200); ("6", 5300); ("7", 5400); ("8", 5500); ("9", 5600);
     ("A", 5700); ("B", 5800); ("C", 5900); ("D", 6000); ("E", 6100);
     ("F", 6200); ("G", 6300); ("H", 6400); ("I", 6500); ("J", 6600);
     ("K", 6700); ("L", 6800); ("M", 6900); ("N", 7000); ("O", 7100);
     ("P", 7200); ("Q", 7300); ("R", 7400); ("S", 7500); ("T", 7600);
     ("U", 7700); ("V", 7800); ("W", 7900); ("X", 8000); ("Y", 8100);
     ("Z", 8200)]%char
|}.

(** ** Decoding state *)

Record DecoderState : Type := {
  isReceivingMessage : bool;
  messageBuffer : string;
  startMarkerDetectionCount : Z;
  endMarkerDetectionCount : Z;
  lastDetectedFrequency : Q;
  lastDetectedTime : Z;
  lastDetectedChar : string;
  transmissionStartTime : Z;
  recentCharacters : list (ascii * Z);
  charFrequencyCounts : list (ascii * Z)
}.

Definition initialDecoder : DecoderState := {|
  isReceivingMessage := false;
  messageBuffer := EmptyString;
  startMarkerDetectionCount := 0;
  endMarkerDetectionCount := 0;
  lastDetectedFrequency := 0;
  lastDetectedTime := 0;
  lastDetectedChar := EmptyString;
  transmissionStartTime := 0;
  recentCharacters := [];
  charFrequencyCounts := []
|}.

(** One analysis tick: the snapshot, its sample rate, and what the two
    [Date.now()] reads of the tick return (the one of [decodeAudio], then the
    one of [shouldAddCharacter]). *)
Record Tick : Type := {
  frequencyData : list Z;
  sampleRate : Q;
  dateNow : Z;
  dateNowAdd : Z
}.

(** ** The audio backend

    An [AudioContext] as the encoder sees it.  The nodes the codec creates
    come in sets, an oscillator wired to its gain node and, in parallel-tone
    mode, a second such pair created alongside it (the source's
    [AudioNodeSet], and the pairs of [playTone]); [ctx_nodes] is the heap of
    these sets and a handle is an index into it.  [ctx_onResume] is what
    [resume()] does when it is called on the suspended context. *)

Inductive AudioContextState : Type := running | suspended | closed.

Inductive ResumeOutcome : Type :=
  | ResumeStarts      (* resolves, the context runs *)
  | ResumeNoEffect    (* resolves, the context is still suspended *)
  | ResumeRejects.    (* the returned promise rejects *)

Inductive ParamEvent : Type :=
  | SetValueAtTime (value time : Q)
  | LinearRampToValueAtTime (value time : Q)
  | ExponentialRampToValueAtTime (value time : Q).

(** An oscillator and the gain node it is connected to. *)
Record Voice : Type := {
  osc_frequency : Z;
  gain_events : list ParamEvent;
  osc_start : option Q;
  osc_stop : option Q
}.

Record NodeSet : Type := {
  primary : Voice;
  parallel : option Voice
}.

Record AudioContext : Type := {
  ctx_state : AudioContextState;
  ctx_onResume : ResumeOutcome;
  ctx_currentTime : Q;
  ctx_nodes : list NodeSet
}.

Inductive Slot : Type := First | Second.

(** An entry of [activeOscillators]: the oscillator and gain node of one
    voice, and its stop time. *)
Record ActiveOscillator : Type := {
  ao_handle : nat;
  ao_slot : Slot;
  stopTime : Q
}.

(** The pause state of [audioCodec.ts]; [performance.now()] readings are
    fractional milliseconds. *)
Record TransmissionState : Type := {
  isTransmissionPaused : bool;
  pauseStartTime : Q;
  totalPausedDuration : Q;
  activeOscillators : list ActiveOscillator
}.

Definition initialTransmission : TransmissionState := {|
  isTransmissionPaused := false;
  pauseStartTime := 0;
  totalPausedDuration := 0;
  activeOscillators := []
|}.

(** The element of [nodes] in [encodeText]. *)
Record AudioNodeSet : Type := {
  ns_char : ascii;
  ns_frequency : Z;
  ns_handle : nat
}.

(** How the promise returned by [encodeText] ends up. *)
Inductive Settlement : Type :=
  | Fulfilled (afterMs : Q)   (* [resolve()] runs after this delay *)
  | Rejected
  | Pending.                  (* never settled *)

Record Encoded : Type := {
  settled : Settlement;
  audio : AudioContext;
  transmission : TransmissionState
}.

Definition Math_min (a b : Q) : Q := if Qltb b a then b else a.
Definition Math_max (a b : Q) : Q := if Qltb a b then b else a.

Definition withNodes (ctx : AudioContext) (nodes : list NodeSet) : AudioContext :=
  {| ctx_state := ctx_state ctx;
     ctx_onResume := ctx_onResume ctx;
     ctx_currentTime := ctx_currentTime ctx;
     ctx_nodes := nodes |}.

Definition voiceAt (ctx : AudioContext) (handle : nat) (slot : Slot) : option Voice :=
  match ctx_nodes ctx !! handle with
  | Some set =>
      match slot with
      | First => Some (primary set)
      | Second => parallel set
      end
  | None => None
  end.

Definition alterVoice (f : Voice -> Voice) (handle : nat) (slot : Slot)
  (ctx : AudioContext) : AudioContext :=
  withNodes ctx
    (alter (fun set =>
              match slot with
              | First => {| primary := f (primary set); parallel := parallel set |}
              | Second => {| primary := primary set;
                             parallel := option_map f (parallel set) |}
              end) handle (ctx_nodes ctx)).

Section Codec.

Variable cfg : Config.

(** ** Character map *)

Definition charToFrequency (char : ascii) : Z :=
  let upperChar := toUpperCase_char char in
  match Object_get (CHAR_FREQUENCIES cfg) upperChar with
  | Some f => if Z.eqb f 0 then 0 else f
  | None => 0
  end.

Fixpoint frequencyToChar_loop (entries : list (ascii * Z)) (frequency : Q)
  : option ascii :=
  match entries with
  | [] => None
  | (char, charFreq) :: rest =>
      if Qltb (Qabs (frequency - inject_Z charFreq)) (inject_Z FREQUENCY_TOLERANCE)
      then Some char
      else frequencyToChar_loop rest frequency
  end.

Definition frequencyToChar (frequency : Q) : option ascii :=
  frequencyToChar_loop (Object_entries (CHAR_FREQUENCIES cfg)) frequency.

(** ** Duplicate suppression *)

Definition isCommonRepeatingChar (char : ascii) : bool :=
  existsb (ascii_eqb char) ["E"; "L"; "O"; "T"; "M"; "S"; "P"; "A"]%char.

(** The character class of the regular expression in [shouldAddCharacter]. *)
Definition punctuationClass : list ascii :=
  ["-"; "_"; "+"; "="; "$"; "&"; "@"; "#"; "%"; "^"; "*"; "("; ")"; "{"; "}";
   "["; "]"; "|"; "\"; ":"; ";"; dquote; "'"; "<"; ">"; ","; "."; "?"; "/"]%char.

Definition matchesPunctuation (char : ascii) : bool :=
  existsb (ascii_eqb char) punctuationClass.

(** The backward loop over the last [recentCharsToCheck] entries, given
    newest first; [true] when it reaches the rejecting [return false]. *)
Fixpoint consecutiveLoop (char : ascii) (newestFirst : list (ascii * Z))
  (consecutiveCount : Z) : bool :=
  match newestFirst with
  | [] => false
  | entry :: older =>
      if ascii_eqb (fst entry) char then
        let consecutiveCount := consecutiveCount + 1 in
        if (3 <=? consecutiveCount) && negb (ascii_eqb char " ")
           && negb (isCommonRepeatingChar char)
        then true
        else consecutiveLoop char older consecutiveCount
      else false
  end.

Definition lockedOut (char : ascii) (now limit : Z) (entries : list (ascii * Z))
  : bool :=
  existsb (fun entry => ascii_eqb (fst entry) char && (now - snd entry <? limit))
          entries.

(** Returns the verdict and the new value of [recentCharacters]. *)
Definition shouldAddCharacter (char : ascii) (now : Z)
  (recentCharacters : list (ascii * Z)) : bool * list (ascii * Z) :=
  let recentCharacters :=
    List.filter (fun entry => now - snd entry <? recentWindow cfg) recentCharacters in
  if lockedOut char now (CHARACTER_LOCKOUT_TIME cfg) recentCharacters then
    (false, recentCharacters)
  else
    let recentCharsToCheck := Nat.min (length recentCharacters) 4 in
    if consecutiveLoop char (firstn recentCharsToCheck (rev recentCharacters)) 0
    then (false, recentCharacters)
    else if matchesPunctuation char && lockedOut char now 350 recentCharacters
    then (false, recentCharacters)
    else (true, recentCharacters ++ [(char, now)]).

Definition postProcessMessage (message : string) : string := message.

(** ** The decoder *)

(** The peak loop of [decodeAudio]: returns [(maxBin, maxValue)]. *)
Fixpoint peakLoop (data : list Z) (i maxBin maxValue : Z) : Z * Z :=
  match data with
  | [] => (maxBin, maxValue)
  | v :: rest =>
      if maxValue <? v then peakLoop rest (i + 1) i v
      else peakLoop rest (i + 1) maxBin maxValue
  end.

Definition peak (data : list Z) : Z * Z := peakLoop data 0 0 0.

Definition binFrequencyOf (maxBin : Z) (sampleRate : Q) (len : nat) : Q :=
  (inject_Z maxBin * sampleRate / inject_Z (Z.of_nat len * 2))%Q.

Definition nearFrequency (binFrequency : Q) (target : Z) : bool :=
  Qltb (Qabs (binFrequency - inject_Z target)) (inject_Z FREQUENCY_TOLERANCE).

(** The update of [lastDetectedFrequency] and [lastDetectedTime]. *)
Definition recordDetection (maxValue : Z) (binFrequency : Q) (currentTime : Z)
  (s : DecoderState) : DecoderState :=
  if SIGNAL_THRESHOLD <? maxValue then
    {| isReceivingMessage := isReceivingMessage s;
       messageBuffer := messageBuffer s;
       startMarkerDetectionCount := startMarkerDetectionCount s;
       endMarkerDetectionCount := endMarkerDetectionCount s;
       lastDetectedFrequency := binFrequency;
       lastDetectedTime := currentTime;
       lastDetectedChar := lastDetectedChar s;
       transmissionStartTime := transmissionStartTime s;
       recentCharacters := recentCharacters s;
       charFrequencyCounts := charFrequencyCounts s |}
  else s.

(** The body of [decodeAudio] from the timeout check on, that is, what a
    tick does once it got past the three early returns. *)
Definition decodeDetection (maxValue : Z) (binFrequency : Q)
  (currentTime now : Z) (s : DecoderState) : option string * DecoderState :=
  if isReceivingMessage s
     && (timeoutCeiling cfg <? currentTime - transmissionStartTime s)
  then
    let message := messageBuffer s in
    let s' :=
      {| isReceivingMessage := false;
         messageBuffer := EmptyString;
         startMarkerDetectionCount := startMarkerDetectionCount s;
         endMarkerDetectionCount := endMarkerDetectionCount s;
         lastDetectedFrequency := lastDetectedFrequency s;
         lastDetectedTime := lastDetectedTime s;
         lastDetectedChar := lastDetectedChar s;
         transmissionStartTime := transmissionStartTime s;
         recentCharacters := recentCharacters s;
         charFrequencyCounts := [] |} in
    if (0 <? String.length message)%nat
    then (Some ("[STREAM_END] " ++ message ++ " (timeout)")%string, s')
    else (Some "[STREAM_END] (timeout)"%string, s')
  else
  if negb (isReceivingMessage s)
     && nearFrequency binFrequency (START_FREQUENCY cfg)
     && (SIGNAL_THRESHOLD <? maxValue)
  then
    let count := startMarkerDetectionCount s + 1 in
    if 2 <=? count then
      (Some "[STREAM_START]"%string,
       {| isReceivingMessage := true;
          messageBuffer := EmptyString;
          startMarkerDetectionCount := 0;
          endMarkerDetectionCount := endMarkerDetectionCount s;
          lastDetectedFrequency := lastDetectedFrequency s;
          lastDetectedTime := lastDetectedTime s;
          lastDetectedChar := lastDetectedChar s;
          transmissionStartTime := currentTime;
          recentCharacters := [];
          charFrequencyCounts := [] |})
    else
      (None,
       {| isReceivingMessage := isReceivingMessage s;
          messageBuffer := messageBuffer s;
          startMarkerDetectionCount := count;
          endMarkerDetectionCount := endMarkerDetectionCount s;
          lastDetectedFrequency := lastDetectedFrequency s;
          lastDetectedTime := lastDetectedTime s;
          lastDetectedChar := lastDetectedChar s;
          transmissionStartTime := transmissionStartTime s;
          recentCharacters := recentCharacters s;
          charFrequencyCounts := charFrequencyCounts s |})
  else
  if negb (isReceivingMessage s) then
    (None,
     {| isReceivingMessage := isReceivingMessage s;
        messageBuffer := messageBuffer s;
        startMarkerDetectionCount := 0;
        endMarkerDetectionCount := endMarkerDetectionCount s;
        lastDetectedFrequency := lastDetectedFrequency s;
        lastDetectedTime := lastDetectedTime s;
        lastDetectedChar := lastDetectedChar s;
        transmissionStartTime := transmissionStartTime s;
        recentCharacters := recentCharacters s;
        charFrequencyCounts := charFrequencyCounts s |})
  else
  if nearFrequency binFrequency (END_FREQUENCY cfg)
     && (SIGNAL_THRESHOLD <? maxValue)
  then
    let count := endMarkerDetectionCount s + 1 in
    if 2 <=? count then
      let message := messageBuffer s in
      let s' :=
        {| isReceivingMessage := false;
           messageBuffer := EmptyString;
           startMarkerDetectionCount := startMarkerDetectionCount s;
           endMarkerDetectionCount := 0;
           lastDetectedFrequency := lastDetectedFrequency s;
           lastDetectedTime := lastDetectedTime s;
           lastDetectedChar := lastDetectedChar s;
           transmissionStartTime := transmissionStartTime s;
           recentCharacters := [];
           charFrequencyCounts := [] |} in
      let processedMessage := postProcessMessage message in
      if (0 <? String.length processedMessage)%nat
      then (Some ("[STREAM_END] " ++ processedMessage)%string, s')
      else (Some "[STREAM_END]"%string, s')
    else
      (None,
       {| isReceivingMessage := isReceivingMessage s;
          messageBuffer := messageBuffer s;
          startMarkerDetectionCount := startMarkerDetectionCount s;
          endMarkerDetectionCount := count;
          lastDetectedFrequency := lastDetectedFrequency s;
          lastDetectedTime := lastDetectedTime s;
          lastDetectedChar := lastDetectedChar s;
          transmissionStartTime := transmissionStartTime s;
          recentCharacters := recentCharacters s;
          charFrequencyCounts := charFrequencyCounts s |})
  else
    let noChar rc :=
      (None,
       {| isReceivingMessage := isReceivingMessage s;
          messageBuffer := messageBuffer s;
          startMarkerDetectionCount := startMarkerDetectionCount s;
          endMarkerDetectionCount := 0;
          lastDetectedFrequency := lastDetectedFrequency s;
          lastDetectedTime := lastDetectedTime s;
          lastDetectedChar := lastDetectedChar s;
          transmissionStartTime := transmissionStartTime s;
          recentCharacters := rc;
          charFrequencyCounts := charFrequencyCounts s |}) in
    if Qgeb binFrequency (inject_Z MINIMUM_VALID_FREQUENCY)
       && Qleb binFrequency (inject_Z MAXIMUM_VALID_FREQUENCY)
    then
      match frequencyToChar binFrequency with
      | Some char =>
          let upperChar := toUpperCase_char char in
          let '(accepted, rc) :=
            shouldAddCharacter upperChar now (recentCharacters s) in
          if accepted then
            (Some ("[STREAM]" ++ str1 upperChar)%string,
             {| isReceivingMessage := isReceivingMessage s;
                messageBuffer := (messageBuffer s ++ str1 upperChar)%string;
                startMarkerDetectionCount := startMarkerDetectionCount s;
                endMarkerDetectionCount := 0;
                lastDetectedFrequency := lastDetectedFrequency s;
                lastDetectedTime := lastDetectedTime s;
                lastDetectedChar := str1 upperChar;
                transmissionStartTime := transmissionStartTime s;
                recentCharacters := rc;
                charFrequencyCounts := charFrequencyCounts s |})
          else noChar rc
      | None => noChar (recentCharacters s)
      end
    else noChar (recentCharacters s).

(** The debounce test of [decodeAudio]. *)
Definition debounced (binFrequency : Q) (currentTime : Z) (s : DecoderState) : bool :=
  Qltb (Qabs (binFrequency - lastDetectedFrequency s)) 15
  && (currentTime - lastDetectedTime s <? DEBOUNCE_TIME cfg).

(** No statement of [decodeAudio] can throw on a snapshot and a sample
    rate, so its [try]/[catch] has no branch here.  The division is never
    reached with an empty snapshot: [maxValue] is then [0] and the first
    test returns. *)
Definition decodeAudio (tick : Tick) (s : DecoderState)
  : option string * DecoderState :=
  let '(maxBin, maxValue) := peak (frequencyData tick) in
  if maxValue <? SIGNAL_THRESHOLD then (None, s) else
  let binFrequency :=
    binFrequencyOf maxBin (sampleRate tick) (length (frequencyData tick)) in
  if Qltb binFrequency (inject_Z MINIMUM_VALID_FREQUENCY)
     || Qgtb binFrequency (inject_Z MAXIMUM_VALID_FREQUENCY)
  then (None, s) else
  let currentTime := dateNow tick in
  if debounced binFrequency currentTime s then (None, s) else
  decodeDetection maxValue binFrequency currentTime (dateNowAdd tick)
                  (recordDetection maxValue binFrequency currentTime s).

Definition resetDecoder (s : DecoderState) : DecoderState := {|
  isReceivingMessage := false;
  messageBuffer := EmptyString;
  startMarkerDetectionCount := 0;
  endMarkerDetectionCount := 0;
  lastDetectedFrequency := 0;
  lastDetectedTime := 0;
  lastDetectedChar := EmptyString;
  transmissionStartTime := 0;
  recentCharacters := [];
  charFrequencyCounts := []
|}.

(** ** The encoder *)

Definition ensureAudioContextReady (audioContext : AudioContext)
  : bool * AudioContext :=
  match ctx_state audioContext with
  | closed => (false, audioContext)
  | suspended =>
      match ctx_onResume audioContext with
      | ResumeStarts =>
          (true,
           {| ctx_state := running;
              ctx_onResume := ctx_onResume audioContext;
              ctx_currentTime := ctx_currentTime audioContext;
              ctx_nodes := ctx_nodes audioContext |})
      | ResumeNoEffect => (false, audioContext)
      | ResumeRejects => (false, audioContext)
      end
  | running => (true, audioContext)
  end.

(** The four gain automation calls of a tone. *)
Definition envelope (exponential : bool) (volume floor startTime duration fadeTime : Q)
  : list ParamEvent :=
  let ramp := if exponential then ExponentialRampToValueAtTime
              else LinearRampToValueAtTime in
  [SetValueAtTime 0 startTime;
   ramp volume (startTime + fadeTime)%Q;
   SetValueAtTime volume (startTime + duration - fadeTime)%Q;
   ramp floor (startTime + duration)%Q].

(** The nodes [playTone] creates, wires and schedules: the oscillator with
    its gain envelope and, in parallel-tone mode and off the marker
    frequencies, the second oscillator.  The frequency sweep of
    [audioCodec.ts] sits under the constant [USE_FREQUENCY_SWEEP = false]
    and is left out. *)
Definition playTone_nodes (frequency : Z) (duration startTime volume : Q) : NodeSet :=
  let fadeTime := Math_min (markerFadeLimit cfg) (duration / markerFadeDivisor cfg)%Q in
  let floor : Q := (if markerExponential cfg then 1 # 100 else 0)%Q in
  let voice (f : Z) (v : Q) :=
    {| osc_frequency := f;
       gain_events := envelope (markerExponential cfg) v floor startTime duration fadeTime;
       osc_start := Some startTime;
       osc_stop := Some (startTime + duration)%Q |} in
  {| primary := voice frequency volume;
     parallel :=
       if USE_PARALLEL_TONES cfg
          && negb (frequency =? START_FREQUENCY cfg)
          && negb (frequency =? END_FREQUENCY cfg)
       then Some (voice (frequency + PARALLEL_TONE_OFFSET cfg) (PARALLEL_TONE_VOLUME cfg))
       else None |}.

Definition playTone (audioContext : AudioContext) (frequency : Z)
  (duration startTime volume : Q) : Q * AudioContext :=
  let '(isReady, audioContext) := ensureAudioContextReady audioContext in
  if negb isReady then (startTime, audioContext) else
  ((startTime + duration)%Q,
   withNodes audioContext
     (ctx_nodes audioContext ++ [playTone_nodes frequency duration startTime volume])).

(** The nodes the [map] callback of [encodeText] creates for a character:
    connected, not yet started. *)
Definition createNodeSet (frequency : Z) : NodeSet :=
  let fresh (f : Z) :=
    {| osc_frequency := f; gain_events := []; osc_start := None; osc_stop := None |} in
  {| primary := fresh frequency;
     parallel := if USE_PARALLEL_TONES cfg
                 then Some (fresh (frequency + PARALLEL_TONE_OFFSET cfg))
                 else None |}.

(** The [map] callback of [encodeText] followed by the [filter]: an
    unsupported character yields no entry and creates no node. *)
Fixpoint createNodes (characters : list ascii) (audioContext : AudioContext)
  : list AudioNodeSet * AudioContext :=
  match characters with
  | [] => ([], audioContext)
  | char :: rest =>
      let frequency := charToFrequency char in
      if frequency =? 0 then createNodes rest audioContext else
      let handle := length (ctx_nodes audioContext) in
      let audioContext :=
        withNodes audioContext (ctx_nodes audioContext ++ [createNodeSet frequency]) in
      let '(nodes, audioContext) := createNodes rest audioContext in
      ({| ns_char := char; ns_frequency := frequency; ns_handle := handle |} :: nodes,
       audioContext)
  end.

Definition scheduleVoice (volume currentTime : Q) (v : Voice) : Voice :=
  let fadeTime := Math_min (5 # 1000) (CHARACTER_DURATION cfg / 12)%Q in
  {| osc_frequency := osc_frequency v;
     gain_events := gain_events v ++
       envelope false volume 0 currentTime (CHARACTER_DURATION cfg) fadeTime;
     osc_start := Some currentTime;
     osc_stop := Some (currentTime + CHARACTER_DURATION cfg)%Q |}.

(** One iteration of the scheduling loop, after the pause wait: its effect
    on the audio graph and on [activeOscillators]. *)
Definition scheduleNode (node : AudioNodeSet) (currentTime : Q)
  (audioContext : AudioContext) : AudioContext :=
  let audioContext :=
    alterVoice (scheduleVoice (VOLUME cfg) currentTime) (ns_handle node) First
               audioContext in
  if USE_PARALLEL_TONES cfg then
    alterVoice (scheduleVoice (PARALLEL_TONE_VOLUME cfg) currentTime)
               (ns_handle node) Second audioContext
  else audioContext.

Definition trackNode (node : AudioNodeSet) (currentTime : Q)
  (audioContext : AudioContext) (active : list ActiveOscillator)
  : list ActiveOscillator :=
  let stop := (currentTime + CHARACTER_DURATION cfg)%Q in
  let active :=
    active ++ [{| ao_handle := ns_handle node; ao_slot := First; stopTime := stop |}] in
  if USE_PARALLEL_TONES cfg then
    match voiceAt audioContext (ns_handle node) Second with
    | Some _ =>
        active ++ [{| ao_handle := ns_handle node; ao_slot := Second; stopTime := stop |}]
    | None => active
    end
  else active.

(** The [for] loop over [nodes].  Nothing else runs while the function is
    modelled, so a loop that finds [isTransmissionPaused] set waits for
    ever: the result is then [None] for the time, with the graph and the
    pause state as they were left. *)
Fixpoint scheduleLoop (nodes : list AudioNodeSet) (currentTime : Q)
  (audioContext : AudioContext) (tx : TransmissionState)
  : option Q * AudioContext * TransmissionState :=
  match nodes with
  | [] => (Some currentTime, audioContext, tx)
  | node :: rest =>
      if pauseControl cfg && isTransmissionPaused tx
      then (None, audioContext, tx)
      else
        let tx :=
          if pauseControl cfg then
            {| isTransmissionPaused := isTransmissionPaused tx;
               pauseStartTime := pauseStartTime tx;
               totalPausedDuration := totalPausedDuration tx;
               activeOscillators :=
                 trackNode node currentTime audioContext (activeOscillators tx) |}
          else tx in
        let audioContext := scheduleNode node currentTime audioContext in
        scheduleLoop rest (currentTime + (CHARACTER_DURATION cfg + CHARACTER_GAP cfg))%Q
                     audioContext tx
  end.

Definition encodeText (text : string) (audioContext : AudioContext)
  (tx : TransmissionState) : Encoded :=
  let tx :=
    if pauseControl cfg then
      {| isTransmissionPaused := false;
         pauseStartTime := pauseStartTime tx;
         totalPausedDuration := 0;
         activeOscillators := [] |}
    else tx in
  let '(isReady, audioContext) := ensureAudioContextReady audioContext in
  if negb isReady
  then {| settled := Fulfilled 0; audio := audioContext; transmission := tx |}
  else
  let text := toUpperCase text in
  let startTime := ctx_currentTime audioContext in
  let currentTime := (startTime + (3 # 100))%Q in
  let '(currentTime, audioContext) :=
    playTone audioContext (START_FREQUENCY cfg) (START_MARKER_DURATION cfg)
             currentTime (VOLUME cfg) in
  let currentTime := (currentTime + (3 # 100))%Q in
  let characters := split_chars text in
  let '(nodes, audioContext) := createNodes characters audioContext in
  match scheduleLoop nodes currentTime audioContext tx with
  | (None, audioContext, tx) =>
      {| settled := Pending; audio := audioContext; transmission := tx |}
  | (Some currentTime, audioContext, tx) =>
      let currentTime := (currentTime + (3 # 100))%Q in
      let '(currentTime, audioContext) :=
        playTone audioContext (END_FREQUENCY cfg) (END_MARKER_DURATION cfg)
                 currentTime (VOLUME cfg) in
      let totalDuration := ((currentTime - startTime) * 1000)%Q in
      let endBuffer := Math_max 100 (totalDuration * (5 # 100))%Q in
      {| settled := Fulfilled (totalDuration + endBuffer)%Q;
         audio := audioContext;
         transmission := tx |}
  end.

(** ** Pause control ([audioCodec.ts]) *)

(** [gain.cancelScheduledValues(0); gain.setValueAtTime(0, 0)]: event times
    are never negative, so the cancellation empties the timeline. *)
Definition muteVoice (v : Voice) : Voice :=
  {| osc_frequency := osc_frequency v;
     gain_events := [SetValueAtTime 0 0];
     osc_start := osc_start v;
     osc_stop := osc_stop v |}.

Definition muteAll (active : list ActiveOscillator) (audioContext : AudioContext)
  : AudioContext :=
  fold_left (fun ctx item => alterVoice muteVoice (ao_handle item) (ao_slot item) ctx)
            active audioContext.

Definition pauseTransmission (performanceNow : Q) (audioContext : AudioContext)
  (tx : TransmissionState) : AudioContext * TransmissionState :=
  if negb (isTransmissionPaused tx) then
    (muteAll (activeOscillators tx) audioContext,
     {| isTransmissionPaused := true;
        pauseStartTime := performanceNow;
        totalPausedDuration := totalPausedDuration tx;
        activeOscillators := activeOscillators tx |})
  else (audioContext, tx).

Definition resumeTransmission (performanceNow : Q) (tx : TransmissionState)
  : TransmissionState :=
  if isTransmissionPaused tx then
    let pauseDuration := (performanceNow - pauseStartTime tx)%Q in
    {| isTransmissionPaused := false;
       pauseStartTime := pauseStartTime tx;
       totalPausedDuration := (totalPausedDuration tx + pauseDuration)%Q;
       activeOscillators := [] |}
  else tx.

Definition getTransmissionPauseState (tx : TransmissionState) : bool :=
  isTransmissionPaused tx.

Definition getTotalPausedDuration (tx : TransmissionState) : Q :=
  totalPausedDuration tx.

End Codec.

(** ** Stopping every oscillator ([audioCodec.ts]) *)

(** [oscillator.stop(0)] on a tracked oscillator: the stop time becomes 0;
    an oscillator that was never started throws instead, and the [catch]
    around the call drops the error. *)
Definition stopVoiceNow (v : Voice) : Voice :=
  match osc_start v with
  | Some _ =>
      {| osc_frequency := osc_frequency v;
         gain_events := gain_events v;
         osc_start := osc_start v;
         osc_stop := Some 0%Q |}
  | None => v
  end.

Definition stopAllOscillators (audioContext : AudioContext) (tx : TransmissionState)
  : AudioContext * TransmissionState :=
  (fold_left (fun ctx item => alterVoice stopVoiceNow (ao_handle item) (ao_slot item) ctx)
             (activeOscillators tx) audioContext,
   {| isTransmissionPaused := isTransmissionPaused tx;
      pauseStartTime := pauseStartTime tx;
      totalPausedDuration := totalPausedDuration tx;
      activeOscillators := [] |}).

(** * The Arduino service ([arduinoService.ts])

    The class [ArduinoService] talks to the board over the Web Serial API.
    The browser side of the port is the environment: each call that can
    fail there takes its outcome as an argument, and the data handed to
    [writer.write] is collected, call by call, in [wire].  The service
    tests the port, the reader and the writer against [null] only, so the
    connection records whether each is set.  Numbers are the integers
    below 10^21 in absolute value, which a template literal prints as
    their decimal numeral.  The text on the line is ASCII, as the commands
    of the service and the responses of the sketches are: [TextEncoder] and
    [TextDecoder] map ASCII characters and bytes to each other one for one,
    and [trim] removes no other white space there. *)

Definition LF : ascii := ascii_of_nat 10.

Record ArduinoConnection : Type := {
  port : bool;
  reader : bool;
  writer : bool;
  isConnected : bool
}.

Record ArduinoService : Type := {
  connection : ArduinoConnection;
  commandQueue : list string
}.

Record Serial : Type := {
  service : ArduinoService;
  wire : list string          (* the data of every [writer.write], in order *)
}.

Inductive PinState : Type := ON | OFF.

Definition stateText (state : PinState) : string :=
  match state with ON => "ON" | OFF => "OFF" end.

(** [`${n}`] *)
Definition Number_toString (n : Z) : string := NilZero.string_of_int (Z.to_int n).

(** [`${pin},${state},${duration}`] *)
Definition commandText (pin : Z) (state : PinState) (duration : Z) : string :=
  (Number_toString pin ++ "," ++ stateText state ++ "," ++ Number_toString duration)%string.

Definition line (text : string) : string := (text ++ String LF EmptyString)%string.

(** [buffer.split('\n')] *)
Fixpoint split_newline (s : string) : list string :=
  match s with
  | EmptyString => [EmptyString]
  | String c rest =>
      if ascii_eqb c LF then EmptyString :: split_newline rest
      else match split_newline rest with
           | first :: lines => String c first :: lines
           | [] => [String c EmptyString]
           end
  end.

(** [decoder.decode(value)] on a chunk of ASCII bytes: the same characters.
    A chunk with other bytes is outside the model; the decoder is used
    without the stream flag, so that a multi-byte sequence cut by the end of
    a chunk would decode to replacement characters. *)
Definition TextDecoder_decode (value : string) : string := value.

(** The white space [trim] removes, within ASCII. *)
Definition isWhiteSpace (c : ascii) : bool :=
  let n := nat_of_ascii c in
  (Nat.leb 9 n && Nat.leb n 13) || Nat.eqb n 32.

(** [line.trim()] is not the empty string. *)
Definition trimmedNonEmpty (text : string) : bool :=
  existsb (fun c => negb (isWhiteSpace c)) (list_ascii_of_string text).

Module ArduinoService.

Definition initial : ArduinoService :=
  {| connection := {| port := false; reader := false; writer := false;
                      isConnected := false |};
     commandQueue := [] |}.

(** How far [connect] gets. *)
Inductive ConnectOutcome : Type :=
  | Unsupported               (* no [navigator.serial] *)
  | NoPort                    (* [requestPort] resolves to nothing *)
  | RequestPortThrows
  | OpenThrows
  | GetReaderThrows
  | GetWriterThrows
  | PortReady.

Definition setConnected (value : bool) (s : ArduinoService) : ArduinoService :=
  {| connection := {| port := port (connection s); reader := reader (connection s);
                      writer := writer (connection s); isConnected := value |};
     commandQueue := commandQueue s |}.

Definition connect (outcome : ConnectOutcome) (s : ArduinoService)
  : bool * ArduinoService :=
  let withConnection (c : ArduinoConnection) :=
    {| connection := c; commandQueue := commandQueue s |} in
  match outcome with
  | Unsupported | NoPort => (false, s)
  | RequestPortThrows | OpenThrows => (false, setConnected false s)
  | GetReaderThrows =>
      (false,
       withConnection {| port := true; reader := reader (connection s);
                         writer := writer (connection s); isConnected := false |})
  | GetWriterThrows =>
      (false,
       withConnection {| port := true; reader := true;
                         writer := writer (connection s); isConnected := false |})
  | PortReady =>
      (true,
       withConnection {| port := true; reader := true; writer := true;
                         isConnected := true |})
  end.

(** The call of [disconnect] that throws, if one does. *)
Inductive DisconnectOutcome : Type :=
  | Closes
  | CancelThrows
  | WriterCloseThrows
  | PortCloseThrows.

Definition disconnect (outcome : DisconnectOutcome) (s : ArduinoService)
  : ArduinoService :=
  let c := connection s in
  let withConnection (c : ArduinoConnection) :=
    {| connection := c; commandQueue := commandQueue s |} in
  if reader c && match outcome with CancelThrows => true | _ => false end
  then s else
  let c := {| port := port c; reader := false; writer := writer c;
              isConnected := isConnected c |} in
  if writer c && match outcome with WriterCloseThrows => true | _ => false end
  then withConnection c else
  let c := {| port := port c; reader := reader c; writer := false;
              isConnected := isConnected c |} in
  if port c && match outcome with PortCloseThrows => true | _ => false end
  then withConnection c else
  withConnection {| port := false; reader := reader c; writer := writer c;
                    isConnected := false |}.

(** [!this.connection.isConnected || !this.connection.writer] *)
Definition cannotWrite (s : ArduinoService) : bool :=
  negb (isConnected (connection s)) || negb (writer (connection s)).

(** [writes] tells whether [writer.write] resolves. *)
Definition sendCommand (pin : Z) (state : PinState) (duration : Z) (writes : bool)
  (w : Serial) : bool * Serial :=
  if cannotWrite (service w) then
    (false,
     {| service :=
          {| connection := connection (service w);
             commandQueue := commandQueue (service w) ++ [commandText pin state duration] |};
        wire := wire w |})
  else if writes then
    (true,
     {| service := service w;
        wire := wire w ++ [line (commandText pin state duration)] |})
  else (false, w).

Definition ledOn (pin : Z) (writes : bool) (w : Serial) : bool * Serial :=
  sendCommand pin ON 0 writes w.

Definition ledOff (pin : Z) (writes : bool) (w : Serial) : bool * Serial :=
  sendCommand pin OFF 0 writes w.

Definition ledFlash (pin duration : Z) (writes : bool) (w : Serial) : bool * Serial :=
  sendCommand pin ON duration writes w.

(** The body shared by [servoStart], [servoStop] and [servoAlert]. *)
Definition servoCommand (command : string) (writes : bool) (w : Serial)
  : bool * Serial :=
  if cannotWrite (service w) then (false, w)
  else if writes then
    (true, {| service := service w; wire := wire w ++ [line command] |})
  else (false, w).

Definition servoStart : bool -> Serial -> bool * Serial := servoCommand "SERVO,START".
Definition servoStop : bool -> Serial -> bool * Serial := servoCommand "SERVO,STOP".
Definition servoAlert : bool -> Serial -> bool * Serial := servoCommand "SERVO,ALERT".

(** One turn of the loop of [listenForData] on a chunk of bytes that was
    read: the buffer that is kept and the responses that are logged. *)
Definition listenStep (st : string * list string) (value : string)
  : string * list string :=
  let lines := split_newline (fst st ++ TextDecoder_decode value)%string in
  let buffer := last lines EmptyString in      (* lines.pop() || '' *)
  let lines := removelast lines in
  (buffer, snd st ++ List.filter trimmedNonEmpty lines).

(** [listenForData] over the chunks of ASCII bytes the reader delivers
    before it is done or fails: the buffer at the end and the responses
    logged. *)
Definition listenForData (chunks : list string) (s : ArduinoService)
  : string * list string :=
  if negb (reader (connection s)) then (EmptyString, [])
  else fold_left listenStep chunks (EmptyString, []).

Definition isConnected (s : ArduinoService) : bool :=
  isConnected (connection s).

End ArduinoService.

(** * Vocabulary of the properties *)

(** ** Sample inputs

    Snapshots as an analyser with [fftSize = 2048] delivers them: 1024 bins,
    here with a single bin raised, at a sample rate of 48 kHz (23.4375 Hz
    per bin). *)

Definition snapshot (bin : nat) (strength : Z) : list Z :=
  repeat 0 bin ++ [strength] ++ repeat 0 (1023 - bin).

Definition silence : list Z := repeat 0 1024%nat.

Definition tickAt (data : list Z) (time : Z) : Tick :=
  {| frequencyData := data; sampleRate := 48000; dateNow := time; dateNowAdd := time |}.

(** Feeds the ticks in order; the events come out oldest first. *)
Fixpoint decodeAll (cfg : Config) (ticks : list Tick) (s : DecoderState)
  : list (option string) * DecoderState :=
  match ticks with
  | [] => ([], s)
  | tick :: rest =>
      let '(event, s) := decodeAudio cfg tick s in
      let '(events, s) := decodeAll cfg rest s in
      (event :: events, s)
  end.

(** ** Decoder runs *)

(** The peak and frequency a tick is read as. *)
Definition tickStrength (tick : Tick) : Z := snd (peak (frequencyData tick)).

Definition tickFrequency (tick : Tick) : Q :=
  binFrequencyOf (fst (peak (frequencyData tick))) (sampleRate tick)
                 (length (frequencyData tick)).

(** A tick gets past the three early returns of [decodeAudio]: the peak
    reaches the signal threshold, its frequency lies in the valid band and
    the detection is not debounced. *)
Definition passesGuards (cfg : Config) (tick : Tick) (s : DecoderState) : bool :=
  (SIGNAL_THRESHOLD <=? tickStrength tick)
  && Qleb (inject_Z MINIMUM_VALID_FREQUENCY) (tickFrequency tick)
  && Qleb (tickFrequency tick) (inject_Z MAXIMUM_VALID_FREQUENCY)
  && negb (debounced cfg (tickFrequency tick) (dateNow tick) s).

Definition roundTrips (cfg : Config) (c : ascii) : bool :=
  match frequencyToChar cfg (inject_Z (charToFrequency cfg c)) with
  | Some c' => ascii_eqb c' c
  | None => false
  end.

(** The entries [shouldAddCharacter] retains at time [now]. *)
Definition retained (cfg : Config) (now : Z) (window : list (ascii * Z))
  : list (ascii * Z) :=
  List.filter (fun entry => now - snd entry <? recentWindow cfg) window.

(** The last [k] entries exist and all hold [c]. *)
Definition lastEntriesAre (k : nat) (c : ascii) (entries : list (ascii * Z)) : bool :=
  (k <=? length entries)%nat
  && forallb (fun entry => ascii_eqb (fst entry) c) (firstn k (rev entries)).

Inductive DecoderOp : Type :=
  | OpDecode (tick : Tick)
  | OpReset.

Definition applyOp (cfg : Config) (op : DecoderOp) (s : DecoderState) : DecoderState :=
  match op with
  | OpDecode tick => snd (decodeAudio cfg tick s)
  | OpReset => resetDecoder s
  end.

Definition runOps (cfg : Config) (ops : list DecoderOp) (s : DecoderState)
  : DecoderState :=
  fold_left (fun s op => applyOp cfg op s) ops s.

Definition bufferOnlyWhileReceiving (s : DecoderState) : Prop :=
  isReceivingMessage s = false -> messageBuffer s = EmptyString.

(** The event of a forced end of stream. *)
Definition timeoutEvent (message : string) : string :=
  if (0 <? String.length message)%nat
  then ("[STREAM_END] " ++ message ++ " (timeout)")%string
  else "[STREAM_END] (timeout)"%string.

(** A receiving decoder of the whale profile, as two start-marker ticks and
    an ["H"] tone leave it. *)
Definition receivingH : DecoderState :=
  snd (decodeAll whale
         [tickAt (snapshot 43 200) 1000; tickAt (snapshot 43 200) 1400;
          tickAt (snapshot 64 200) 2000] initialDecoder).

(** The peak of the tick is the start marker: within the tolerance of
    [START_FREQUENCY], at a strength above [SIGNAL_THRESHOLD]. *)
Definition qualifiesAsStart (cfg : Config) (tick : Tick) : bool :=
  nearFrequency (tickFrequency tick) (START_FREQUENCY cfg)
  && (SIGNAL_THRESHOLD <? tickStrength tick).

(** None of the ticks is debounced when they are fed in order to a decoder
    whose last detection was [(lastFrequency, lastTime)] and every one of
    them is recorded as a detection. *)
Fixpoint spacedFrom (cfg : Config) (lastFrequency : Q) (lastTime : Z)
  (ticks : list Tick) : bool :=
  match ticks with
  | [] => true
  | tick :: rest =>
      negb (Qltb (Qabs (tickFrequency tick - lastFrequency)) 15
            && (dateNow tick - lastTime <? DEBOUNCE_TIME cfg))
      && spacedFrom cfg (tickFrequency tick) (dateNow tick) rest
  end.

(** The table holds no character within reach of the start marker. *)
Definition startMarkerClear (cfg : Config) : bool :=
  (90 <=? Z.abs (END_FREQUENCY cfg - START_FREQUENCY cfg))
  && forallb (fun entry => 90 <=? Z.abs (snd entry - START_FREQUENCY cfg))
             (Object_entries (CHAR_FREQUENCIES cfg)).

Definition streamEvent (c : ascii) : string := ("[STREAM]" ++ str1 c)%string.


(** A receiving decoder of the whale profile, right after the start
    marker. *)
Definition receivingFresh : DecoderState :=
  snd (decodeAll whale
         [tickAt (snapshot 43 200) 1000; tickAt (snapshot 43 200) 1400]
         initialDecoder).

(** ** Encoder runs *)

(** The backend cannot be used: closed, or suspended with a [resume()]
    that fails (it rejects, or leaves the context suspended). *)
Definition unusable (ctx : AudioContext) : Prop :=
  ctx_state ctx = closed
  \/ (ctx_state ctx = suspended /\ ctx_onResume ctx <> ResumeStarts).

Definition usable (ctx : AudioContext) : Prop :=
  ctx_state ctx = running
  \/ (ctx_state ctx = suspended /\ ctx_onResume ctx = ResumeStarts).

(** The context once it runs. *)
Definition resumed (ctx : AudioContext) : AudioContext :=
  {| ctx_state := running;
     ctx_onResume := ctx_onResume ctx;
     ctx_currentTime := ctx_currentTime ctx;
     ctx_nodes := ctx_nodes ctx |}.

(** The entries of [nodes] for supported characters, the first of them
    created at [handle]. *)
Fixpoint nodesFor (cfg : Config) (handle : nat) (characters : list ascii)
  : list AudioNodeSet :=
  match characters with
  | [] => []
  | char :: rest =>
      {| ns_char := char; ns_frequency := charToFrequency cfg char;
         ns_handle := handle |} :: nodesFor cfg (S handle) rest
  end.

Definition supported (cfg : Config) (char : ascii) : bool :=
  negb (charToFrequency cfg char =? 0).

(** What one iteration of the scheduling loop makes of a node set. *)
Definition scheduleSet (cfg : Config) (currentTime : Q) (set : NodeSet) : NodeSet :=
  {| primary := scheduleVoice cfg (VOLUME cfg) currentTime (primary set);
     parallel :=
       if USE_PARALLEL_TONES cfg
       then option_map (scheduleVoice cfg (PARALLEL_TONE_VOLUME cfg) currentTime)
                       (parallel set)
       else parallel set |}.

Fixpoint scheduledSets (cfg : Config) (currentTime : Q) (sets : list NodeSet)
  : list NodeSet :=
  match sets with
  | [] => []
  | set :: rest =>
      scheduleSet cfg currentTime set
      :: scheduledSets cfg (currentTime + (CHARACTER_DURATION cfg + CHARACTER_GAP cfg))%Q
           rest
  end.

(** The value of [currentTime] after [n] iterations. *)
Fixpoint loopEnd (cfg : Config) (currentTime : Q) (n : nat) : Q :=
  match n with
  | O => currentTime
  | S n =>
      loopEnd cfg (currentTime + (CHARACTER_DURATION cfg + CHARACTER_GAP cfg))%Q n
  end.

(** The characters [encodeText] makes tones of. *)
Definition encodedCharacters (cfg : Config) (text : string) : list ascii :=
  List.filter (supported cfg) (split_chars (toUpperCase text)).

(** The time at which the first character tone starts. *)
Definition firstCharacterTime (cfg : Config) (ctx : AudioContext) : Q :=
  (ctx_currentTime ctx + (3 # 100) + START_MARKER_DURATION cfg + (3 # 100))%Q.

(** The node sets a complete run adds to the graph, in the order of their
    creation. *)
Definition transmissionNodes (cfg : Config) (text : string) (ctx : AudioContext)
  : list NodeSet :=
  let characters := encodedCharacters cfg text in
  [playTone_nodes cfg (START_FREQUENCY cfg) (START_MARKER_DURATION cfg)
     (ctx_currentTime ctx + (3 # 100))%Q (VOLUME cfg)]
  ++ scheduledSets cfg (firstCharacterTime cfg ctx)
       (List.map (fun char => createNodeSet cfg (charToFrequency cfg char)) characters)
  ++ [playTone_nodes cfg (END_FREQUENCY cfg) (END_MARKER_DURATION cfg)
        (loopEnd cfg (firstCharacterTime cfg ctx) (length characters) + (3 # 100))%Q
        (VOLUME cfg)].

Definition closedContext : AudioContext :=
  {| ctx_state := closed; ctx_onResume := ResumeRejects;
     ctx_currentTime := 0; ctx_nodes := [] |}.

Definition runningContext : AudioContext :=
  {| ctx_state := running; ctx_onResume := ResumeStarts;
     ctx_currentTime := 0; ctx_nodes := [] |}.

Definition slot_eqb (a b : Slot) : bool :=
  match a, b with
  | First, First | Second, Second => true
  | _, _ => false
  end.

(** The voice is tracked by [activeOscillators]. *)
Definition tracked (active : list ActiveOscillator) (handle : nat) (slot : Slot) : bool :=
  existsb (fun item => Nat.eqb (ao_handle item) handle && slot_eqb (ao_slot item) slot)
          active.

(** The tone is doubled by a second oscillator. *)
Definition isDoubled (tone : NodeSet) : bool :=
  match parallel tone with
  | Some _ => true
  | None => false
  end.

(** Two voices sound over the same interval. *)
Definition sameWindow (v w : Voice) : bool :=
  match osc_start v, osc_stop v, osc_start w, osc_stop w with
  | Some a, Some b, Some c, Some d => Qeq_bool a c && Qeq_bool b d
  | _, _, _, _ => false
  end.

(** Every tone of the list is scheduled, starts after the one before it has
    stopped (after [after] for the first) and stops after it starts; a
    parallel voice sounds with its primary. *)
Fixpoint inSequence (after : Q) (tones : list NodeSet) : bool :=
  match tones with
  | [] => true
  | tone :: rest =>
      match osc_start (primary tone), osc_stop (primary tone) with
      | Some start, Some stop =>
          Qltb after start && Qltb start stop
          && match parallel tone with
             | Some second => sameWindow (primary tone) second
             | None => true
             end
          && inSequence stop rest
      | _, _ => false
      end
  end.

(** ** More vocabulary: decoder *)

(** The event of an end of stream confirmed by the end marker. *)
Definition endEvent (message : string) : string :=
  if (0 <? String.length message)%nat
  then ("[STREAM_END] " ++ message)%string
  else "[STREAM_END]"%string.

(** The peak of the tick is the end marker: within the tolerance of
    [END_FREQUENCY], at a strength above [SIGNAL_THRESHOLD]. *)
Definition qualifiesAsEnd (cfg : Config) (tick : Tick) : bool :=
  nearFrequency (tickFrequency tick) (END_FREQUENCY cfg)
  && (SIGNAL_THRESHOLD <? tickStrength tick).

(** What a listener that only sees the events knows of the decoder:
    whether a message is being received, and the characters streamed so far.
    [frameStep] is [None] when the event cannot follow in that state. *)
Definition frameStep (frame : bool * string) (event : option string)
  : option (bool * string) :=
  match event with
  | None => Some frame
  | Some text =>
      if String.eqb text "[STREAM_START]" then
        if fst frame then None else Some (true, EmptyString)
      else if fst frame
              && (String.eqb text (endEvent (snd frame))
                  || String.eqb text (timeoutEvent (snd frame)))
      then Some (false, EmptyString)
      else if fst frame && String.prefix "[STREAM]" text
              && Nat.eqb (String.length text) 9
      then Some (true, (snd frame ++ String.substring 8 1 text)%string)
      else None
  end.

Fixpoint frameRun (frame : bool * string) (events : list (option string))
  : option (bool * string) :=
  match events with
  | [] => Some frame
  | event :: rest =>
      match frameStep frame event with
      | Some frame => frameRun frame rest
      | None => None
      end
  end.

(** Any two entries of the table are the same entry or lie 90 Hz or more
    apart, twice the tolerance. *)
Definition entry_eqb (a b : ascii * Z) : bool :=
  ascii_eqb (fst a) (fst b) && (snd a =? snd b).

Definition bandsApart (entries : list (ascii * Z)) : bool :=
  forallb (fun a =>
             forallb (fun b => entry_eqb a b || (90 <=? Z.abs (snd a - snd b)))
                     entries)
          entries.

(** The table holds no character within reach of the end marker. *)
Definition endMarkerClear (cfg : Config) : bool :=
  forallb (fun entry => 90 <=? Z.abs (snd entry - END_FREQUENCY cfg))
          (Object_entries (CHAR_FREQUENCIES cfg)).

(** No retained entry holds [c]. *)
Definition absentFrom (c : ascii) (entries : list (ascii * Z)) : bool :=
  forallb (fun entry => negb (ascii_eqb (fst entry) c)) entries.

(** ** More vocabulary: encoder *)

(** The entries the scheduling loop pushes on [activeOscillators] for [n]
    character tones, the first of them at [handle] and at [currentTime]. *)
Fixpoint trackedTones (cfg : Config) (handle : nat) (currentTime : Q) (n : nat)
  : list ActiveOscillator :=
  match n with
  | O => []
  | S n =>
      let stop := (currentTime + CHARACTER_DURATION cfg)%Q in
      {| ao_handle := handle; ao_slot := First; stopTime := stop |}
      :: (if USE_PARALLEL_TONES cfg
          then [{| ao_handle := handle; ao_slot := Second; stopTime := stop |}]
          else [])
      ++ trackedTones cfg (S handle)
           (currentTime + (CHARACTER_DURATION cfg + CHARACTER_GAP cfg))%Q n
  end.

(** Every character of the text is an ASCII one. *)
Definition isASCII (text : string) : bool :=
  forallb (fun c => Nat.ltb (nat_of_ascii c) 128) (list_ascii_of_string text).

(** The voice is scheduled to stop less than [ms] milliseconds after
    [startTime]. *)
Definition stopsWithin (startTime ms : Q) (v : Voice) : bool :=
  match osc_stop v with
  | Some stop => Qltb ((stop - startTime) * 1000) ms
  | None => false
  end.

Definition toneStopsWithin (startTime ms : Q) (tone : NodeSet) : bool :=
  stopsWithin startTime ms (primary tone)
  && match parallel tone with
     | Some second => stopsWithin startTime ms second
     | None => true
     end.

(** ** Vocabulary: the service as driven by its callers *)

Inductive ServiceCall : Type :=
  | Connect (outcome : ArduinoService.ConnectOutcome)
  | Disconnect (outcome : ArduinoService.DisconnectOutcome)
  | SendCommand (pin : Z) (state : PinState) (duration : Z) (writes : bool)
  | LedOn (pin : Z) (writes : bool)
  | LedOff (pin : Z) (writes : bool)
  | LedFlash (pin duration : Z) (writes : bool)
  | ServoStart (writes : bool)
  | ServoStop (writes : bool)
  | ServoAlert (writes : bool).

(** A call and the value it resolves to ([true] for [disconnect], which
    resolves to nothing). *)
Definition serviceCall (call : ServiceCall) (w : Serial) : bool * Serial :=
  let onService (r : bool * ArduinoService) :=
    (fst r, {| service := snd r; wire := wire w |}) in
  match call with
  | Connect outcome => onService (ArduinoService.connect outcome (service w))
  | Disconnect outcome =>
      onService (true, ArduinoService.disconnect outcome (service w))
  | SendCommand pin state duration writes =>
      ArduinoService.sendCommand pin state duration writes w
  | LedOn pin writes => ArduinoService.ledOn pin writes w
  | LedOff pin writes => ArduinoService.ledOff pin writes w
  | LedFlash pin duration writes => ArduinoService.ledFlash pin duration writes w
  | ServoStart writes => ArduinoService.servoStart writes w
  | ServoStop writes => ArduinoService.servoStop writes w
  | ServoAlert writes => ArduinoService.servoAlert writes w
  end.

Fixpoint serviceCalls (calls : list ServiceCall) (w : Serial) : list bool * Serial :=
  match calls with
  | [] => ([], w)
  | call :: rest =>
      let first := serviceCall call w in
      let others := serviceCalls rest (snd first) in
      (fst first :: fst others, snd others)
  end.

(** The text of the command a call is for, if it is for one. *)
Definition commandOf (call : ServiceCall) : option string :=
  match call with
  | Connect _ | Disconnect _ => None
  | SendCommand pin state duration _ => Some (commandText pin state duration)
  | LedOn pin _ => Some (commandText pin ON 0)
  | LedOff pin _ => Some (commandText pin OFF 0)
  | LedFlash pin duration _ => Some (commandText pin ON duration)
  | ServoStart _ => Some "SERVO,START"%string
  | ServoStop _ => Some "SERVO,STOP"%string
  | ServoAlert _ => Some "SERVO,ALERT"%string
  end.

(** The lines of the calls that resolved to [true]. *)
Fixpoint acknowledged (calls : list ServiceCall) (results : list bool) : list string :=
  match calls, results with
  | call :: calls, result :: results =>
      match commandOf call with
      | Some text => if result then line text :: acknowledged calls results
                     else acknowledged calls results
      | None => acknowledged calls results
      end
  | _, _ => []
  end.

Definition noNewline (text : string) : bool :=
  forallb (fun c => negb (ascii_eqb c LF)) (list_ascii_of_string text).

Definition joined (chunks : list string) : string :=
  fold_right String.append EmptyString chunks.

(** * Properties *)

(** ** Basic facts *)

Lemma Qltb_true (a b : Q) : Qltb a b = true <-> (a < b)%Q.
Proof.
  unfold Qltb. rewrite Qlt_alt.
  destruct (a ?= b)%Q; split; intros H; congruence.
Qed.

Lemma Qltb_false (a b : Q) : Qltb a b = false <-> (b <= a)%Q.
Proof.
  unfold Qltb. rewrite Qle_alt, <- Qgt_alt, Qlt_alt.
  destruct (a ?= b)%Q; split; intros H; congruence.
Qed.

Lemma ascii_eqb_true (a b : ascii) : ascii_eqb a b = true <-> a = b.
Proof. apply Ascii.eqb_eq. Qed.

Lemma ascii_eqb_refl (a : ascii) : ascii_eqb a a = true.
Proof. apply Ascii.eqb_refl. Qed.

Lemma decodeAudio_guarded (cfg : Config) (tick : Tick) (s : DecoderState) :
  passesGuards cfg tick s = true ->
  decodeAudio cfg tick s =
  decodeDetection cfg (tickStrength tick) (tickFrequency tick) (dateNow tick)
    (dateNowAdd tick)
    (recordDetection (tickStrength tick) (tickFrequency tick) (dateNow tick) s).
Proof.
  unfold passesGuards, decodeAudio, tickStrength, tickFrequency, Qleb, Qgtb.
  destruct (peak (frequencyData tick)) as [maxBin maxValue]; simpl.
  intros H.
  apply andb_true_iff in H as [H Hdeb].
  apply andb_true_iff in H as [H Hmax].
  apply andb_true_iff in H as [Hsig Hmin].
  apply Z.leb_le in Hsig.
  destruct (maxValue <? SIGNAL_THRESHOLD) eqn:E; [apply Z.ltb_lt in E; lia|].
  apply negb_true_iff in Hmin. apply negb_true_iff in Hmax.
  apply negb_true_iff in Hdeb.
  rewrite Hmin, Hmax, Hdeb. reflexivity.
Qed.

Lemma decodeAudio_stopped (cfg : Config) (tick : Tick) (s : DecoderState) :
  passesGuards cfg tick s = false -> decodeAudio cfg tick s = (None, s).
Proof.
  unfold passesGuards, decodeAudio, tickStrength, tickFrequency, Qleb, Qgtb.
  destruct (peak (frequencyData tick)) as [maxBin maxValue]; simpl.
  intros H.
  destruct (maxValue <? SIGNAL_THRESHOLD) eqn:E; [reflexivity|].
  apply Z.ltb_ge in E. apply Z.leb_le in E. rewrite E in H. simpl in H.
  destruct (Qltb _ (inject_Z MINIMUM_VALID_FREQUENCY)); [reflexivity|].
  destruct (Qltb (inject_Z MAXIMUM_VALID_FREQUENCY) _); [reflexivity|].
  simpl in *. apply negb_false_iff in H. rewrite H. reflexivity.
Qed.

Lemma recordDetection_receiving maxValue f t s :
  isReceivingMessage (recordDetection maxValue f t s) = isReceivingMessage s.
Proof. unfold recordDetection. destruct (_ <? _); reflexivity. Qed.

Lemma recordDetection_buffer maxValue f t s :
  messageBuffer (recordDetection maxValue f t s) = messageBuffer s.
Proof. unfold recordDetection. destruct (_ <? _); reflexivity. Qed.

Lemma recordDetection_start maxValue f t s :
  transmissionStartTime (recordDetection maxValue f t s) = transmissionStartTime s.
Proof. unfold recordDetection. destruct (_ <? _); reflexivity. Qed.

Lemma recordDetection_startCount maxValue f t s :
  startMarkerDetectionCount (recordDetection maxValue f t s)
  = startMarkerDetectionCount s.
Proof. unfold recordDetection. destruct (_ <? _); reflexivity. Qed.

Lemma recordDetection_recent maxValue f t s :
  recentCharacters (recordDetection maxValue f t s) = recentCharacters s.
Proof. unfold recordDetection. destruct (_ <? _); reflexivity. Qed.

(** The scenario of the specification: the tones of ["HI"] between the two
    markers, each marker confirmed by two ticks, decode to the four
    events. *)
Example decodes_HI :
  let ticks :=
    [tickAt (snapshot 43 200) 1000; tickAt (snapshot 43 200) 1400;
     tickAt (snapshot 64 200) 2600; tickAt (snapshot 68 200) 4300;
     tickAt (snapshot 34 200) 6000; tickAt (snapshot 34 200) 6400] in
  List.filter (fun event => match event with Some _ => true | None => false end)
              (fst (decodeAll whale ticks initialDecoder))
  = [Some "[STREAM_START]"; Some "[STREAM]H"; Some "[STREAM]I";
     Some "[STREAM_END] HI"]%string.
Proof. vm_compute. reflexivity. Qed.

Lemma resetDecoder_idempotent (s : DecoderState) :
  resetDecoder (resetDecoder s) = resetDecoder s.
Proof. reflexivity. Qed.

(** Case analysis on every test of a decoder step. *)
Ltac break_step :=
  repeat match goal with
         | |- context [if ?b then _ else _] => destruct b eqn:?; simpl
         | |- context [match frequencyToChar ?c ?f with _ => _ end] =>
             destruct (frequencyToChar c f) eqn:?; simpl
         | |- context [let '(_, _) := ?p in _] => destruct p eqn:?; simpl
         end.

(** ** C5: the character map round-trips *)

Lemma roundTrips_table (cfg : Config) :
  cfg = whale \/ cfg = fast ->
  forallb (roundTrips cfg) (List.map fst (CHAR_FREQUENCIES cfg)) = true.
Proof. intros [-> | ->]; vm_compute; reflexivity. Qed.

(** C5. For every key [c] of the [CHAR_FREQUENCIES] table, of the whale
    profile as of the fast one, [frequencyToChar (charToFrequency c)] is
    [c]. *)
Theorem frequencyToChar_charToFrequency (cfg : Config) (c : ascii) :
  cfg = whale \/ cfg = fast ->
  In c (List.map fst (CHAR_FREQUENCIES cfg)) ->
  frequencyToChar cfg (inject_Z (charToFrequency cfg c)) = Some c.
Proof.
  intros Hcfg Hin.
  pose proof (roundTrips_table cfg Hcfg) as Hall.
  rewrite forallb_forall in Hall. specialize (Hall c Hin).
  unfold roundTrips in Hall.
  destruct (frequencyToChar cfg (inject_Z (charToFrequency cfg c))) as [c'|];
    [|discriminate].
  apply ascii_eqb_true in Hall. congruence.
Qed.

Lemma frequencyToChar_charToFrequency_witness :
  frequencyToChar fast (inject_Z (charToFrequency fast "7")) = Some "7"%char.
Proof.
  apply frequencyToChar_charToFrequency.
  - right; reflexivity.
  - vm_compute. do 40 right. left. reflexivity.
Defined.

(** ** C3: consecutive repeats *)

(** C3 fails as stated: in the fast profile two retained ["B"] entries,
    120 ms and 240 ms old, do not stop a third ["B"]. *)
Lemma shouldAddCharacter_accepts_third_repeat :
  let window := [("B"%char, 1200); ("B"%char, 1320)] in
  lastEntriesAre 2 "B" (retained fast 1440 window) = true
  /\ "B"%char <> " "%char
  /\ isCommonRepeatingChar "B" = false
  /\ fst (shouldAddCharacter fast "B" 1440 window) = true.
Proof. vm_compute. repeat split; congruence. Qed.

(** The window of the lemma above arises from decoding: after the start
    marker, three ["B"] tones 120 ms apart are all accepted. *)
Example third_repeat_decoded :
  let ticks := [tickAt (snapshot 107 200) 1000; tickAt (snapshot 107 200) 1100;
                tickAt (snapshot 247 200) 1200; tickAt (snapshot 247 200) 1320;
                tickAt (snapshot 247 200) 1440] in
  fst (decodeAll fast ticks initialDecoder)
  = [None; Some "[STREAM_START]"; Some "[STREAM]B"; Some "[STREAM]B";
     Some "[STREAM]B"]%string.
Proof. vm_compute. reflexivity. Qed.

Lemma consecutiveLoop_three (c : ascii) (e1 e2 e3 : ascii * Z)
  (older : list (ascii * Z)) :
  fst e1 = c -> fst e2 = c -> fst e3 = c ->
  c <> " "%char -> isCommonRepeatingChar c = false ->
  consecutiveLoop c (e1 :: e2 :: e3 :: older) 0 = true.
Proof.
  intros H1 H2 H3 Hsp Hcommon. simpl.
  rewrite H1, H2, H3, !ascii_eqb_refl, Hcommon. simpl.
  destruct (ascii_eqb c " ") eqn:E; [apply ascii_eqb_true in E; contradiction|].
  reflexivity.
Qed.

(** C3, amended. In every profile and for every state of the window: when
    the last three retained entries hold [c], and [c] is neither the space
    nor on the allow-list, [shouldAddCharacter c] returns false.  It is the
    fourth consecutive repeat that is refused, not the third. *)
Theorem shouldAddCharacter_rejects_fourth_repeat (cfg : Config) (c : ascii)
  (now : Z) (window : list (ascii * Z)) :
  lastEntriesAre 3 c (retained cfg now window) = true ->
  c <> " "%char ->
  isCommonRepeatingChar c = false ->
  fst (shouldAddCharacter cfg c now window) = false.
Proof.
  intros Hlast Hsp Hcommon.
  unfold shouldAddCharacter. fold (retained cfg now window).
  set (kept := retained cfg now window) in *.
  destruct (lockedOut c now (CHARACTER_LOCKOUT_TIME cfg) kept); [reflexivity|].
  unfold lastEntriesAre in Hlast.
  apply andb_true_iff in Hlast as [Hlen Hall].
  apply Nat.leb_le in Hlen.
  rewrite <- length_rev in *.
  destruct (rev kept) as [|e1 [|e2 [|e3 older]]]; simpl in Hlen; try lia.
  simpl in Hall.
  apply andb_true_iff in Hall as [H1 Hall].
  apply andb_true_iff in Hall as [H2 Hall].
  apply andb_true_iff in Hall as [H3 _].
  apply ascii_eqb_true in H1, H2, H3.
  assert (Hloop : forall rest,
             consecutiveLoop c (e1 :: e2 :: e3 :: rest) 0 = true)
    by (intros; apply consecutiveLoop_three; assumption).
  destruct older as [|e4 older]; simpl length; simpl Nat.min; simpl firstn;
    rewrite Hloop; reflexivity.
Qed.

Lemma shouldAddCharacter_rejects_fourth_repeat_witness :
  fst (shouldAddCharacter fast "B" 1560
         [("B"%char, 1200); ("B"%char, 1320); ("B"%char, 1440)]) = false.
Proof.
  apply shouldAddCharacter_rejects_fourth_repeat.
  - vm_compute; reflexivity.
  - discriminate.
  - vm_compute; reflexivity.
Defined.

(** ** C9: the buffer is empty whenever the decoder is idle *)

Lemma decodeDetection_idle_buffer cfg maxValue f t now s :
  bufferOnlyWhileReceiving s \/ isReceivingMessage s = true ->
  bufferOnlyWhileReceiving (snd (decodeDetection cfg maxValue f t now s)).
Proof.
  unfold bufferOnlyWhileReceiving, decodeDetection. intros Hs.
  break_step; intros Hidle; try reflexivity; try discriminate;
    destruct (isReceivingMessage s); try discriminate;
    destruct Hs as [Hs | Hs]; try discriminate; auto.
Qed.

Lemma applyOp_idle_buffer cfg op s :
  bufferOnlyWhileReceiving s \/ isReceivingMessage s = true ->
  bufferOnlyWhileReceiving (applyOp cfg op s).
Proof.
  intros Hs. destruct op as [tick|]; simpl; [|intros _; reflexivity].
  destruct (passesGuards cfg tick s) eqn:Hg.
  - rewrite decodeAudio_guarded by assumption.
    apply decodeDetection_idle_buffer.
    unfold bufferOnlyWhileReceiving.
    rewrite recordDetection_receiving, recordDetection_buffer. exact Hs.
  - rewrite decodeAudio_stopped by assumption. simpl.
    destruct Hs as [Hs | Hs]; [exact Hs|].
    intros Hidle. congruence.
Qed.

Lemma runOps_idle_buffer cfg ops s :
  bufferOnlyWhileReceiving s -> bufferOnlyWhileReceiving (runOps cfg ops s).
Proof.
  revert s. induction ops as [|op ops IH]; intros s Hs; simpl; [exact Hs|].
  apply IH. apply applyOp_idle_buffer. left; exact Hs.
Qed.

(** C9. After any sequence of [decodeAudio] and [resetDecoder] calls from
    the initial state, [messageBuffer] is empty unless
    [isReceivingMessage] holds; and a call, in whatever state, that turns
    [isReceivingMessage] from true to false leaves [messageBuffer] empty. *)
Theorem buffer_nonempty_only_while_receiving (cfg : Config) :
  (forall ops, bufferOnlyWhileReceiving (runOps cfg ops initialDecoder))
  /\ (forall s op,
        isReceivingMessage s = true ->
        isReceivingMessage (applyOp cfg op s) = false ->
        messageBuffer (applyOp cfg op s) = EmptyString).
Proof.
  split.
  - intros ops. apply runOps_idle_buffer. intros _; reflexivity.
  - intros s op Hrecv. apply applyOp_idle_buffer. right; exact Hrecv.
Qed.

Lemma buffer_nonempty_only_while_receiving_witness :
  bufferOnlyWhileReceiving
    (runOps whale [OpDecode (tickAt (snapshot 43 200) 1000); OpReset] initialDecoder)
  /\ messageBuffer
       (applyOp whale (OpDecode (tickAt (snapshot 64 200) 60000)) receivingH)
     = EmptyString.
Proof.
  split.
  - apply (proj1 (buffer_nonempty_only_while_receiving whale)).
  - apply (proj2 (buffer_nonempty_only_while_receiving whale));
      vm_compute; reflexivity.
Defined.

(** ** C1: the transmission timeout *)

(** C1 fails as stated: a silent snapshot, more than 50 s after the start
    of the transmission, returns [null] and leaves the decoder receiving,
    with its buffer. *)
Lemma timeout_not_taken_on_silence :
  isReceivingMessage receivingH = true
  /\ messageBuffer receivingH = "H"%string
  /\ timeoutCeiling whale < 60000 - transmissionStartTime receivingH
  /\ decodeAudio whale (tickAt silence 60000) receivingH = (None, receivingH).
Proof. vm_compute. repeat split; reflexivity. Qed.

(** C1, amended. In every profile, take a call to [decodeAudio] made
    while the decoder is receiving, more than the timeout ceiling after
    [transmissionStartTime].  If its snapshot gets past the signal-threshold,
    frequency-range and debounce tests, the call returns the
    ["[STREAM_END]"] event with the buffer (if not empty) and the
    ["(timeout)"] suffix, turns the decoder idle and empties the buffer,
    whatever marker or character the snapshot holds.  If one of the three
    tests stops it, the call returns [null] and leaves the decoder as it
    was. *)
Theorem timeout_forces_end_of_stream (cfg : Config) (tick : Tick)
  (s : DecoderState) :
  isReceivingMessage s = true ->
  timeoutCeiling cfg < dateNow tick - transmissionStartTime s ->
  (passesGuards cfg tick s = true ->
   fst (decodeAudio cfg tick s) = Some (timeoutEvent (messageBuffer s))
   /\ isReceivingMessage (snd (decodeAudio cfg tick s)) = false
   /\ messageBuffer (snd (decodeAudio cfg tick s)) = EmptyString)
  /\ (passesGuards cfg tick s = false -> decodeAudio cfg tick s = (None, s)).
Proof.
  intros Hrecv Hlate. split; [|apply decodeAudio_stopped].
  intros Hguards.
  rewrite decodeAudio_guarded by assumption.
  unfold decodeDetection, timeoutEvent.
  rewrite recordDetection_receiving, recordDetection_start,
    recordDetection_buffer, Hrecv.
  apply Z.ltb_lt in Hlate. rewrite Hlate. simpl.
  destruct (0 <? String.length (messageBuffer s))%nat; simpl; auto.
Qed.

Lemma timeout_forces_end_of_stream_witness :
  fst (decodeAudio whale (tickAt (snapshot 64 200) 60000) receivingH)
  = Some "[STREAM_END] H (timeout)"%string
  /\ isReceivingMessage
       (snd (decodeAudio whale (tickAt (snapshot 64 200) 60000) receivingH)) = false
  /\ messageBuffer
       (snd (decodeAudio whale (tickAt (snapshot 64 200) 60000) receivingH))
     = EmptyString.
Proof.
  apply (proj1 (timeout_forces_end_of_stream whale
                  (tickAt (snapshot 64 200) 60000) receivingH
                  ltac:(vm_compute; reflexivity) ltac:(vm_compute; reflexivity)));
    vm_compute; reflexivity.
Defined.

(** ** C2: confirming the start marker *)

(** C2 fails as stated, twice.  Two consecutive ticks of the start marker,
    16 ms apart, do not start the reception: the second one is debounced.
    And a silent tick, which does not match the marker, leaves the
    confirmation counter at 1, so that the single marker tick after it
    starts the reception. *)
Lemma start_marker_debounced_and_counter_kept :
  let t1 := tickAt (snapshot 43 200) 1000 in
  let t2 := tickAt (snapshot 43 200) 1016 in
  let s1 := snd (decodeAudio whale t1 initialDecoder) in
  let s2 := snd (decodeAudio whale (tickAt silence 1400) s1) in
  (qualifiesAsStart whale t1 = true
   /\ qualifiesAsStart whale t2 = true
   /\ fst (decodeAll whale [t1; t2] initialDecoder) = [None; None]
   /\ isReceivingMessage (snd (decodeAll whale [t1; t2] initialDecoder)) = false)
  /\ (isReceivingMessage s1 = false
      /\ startMarkerDetectionCount s1 = 1
      /\ qualifiesAsStart whale (tickAt silence 1400) = false
      /\ startMarkerDetectionCount s2 = 1
      /\ fst (decodeAudio whale (tickAt (snapshot 43 200) 1800) s2)
         = Some "[STREAM_START]"%string).
Proof. vm_compute. repeat split; reflexivity. Qed.

Lemma near_bounds (f : Q) (target : Z) :
  nearFrequency f target = true
  <-> (inject_Z target - 45 < f /\ f < inject_Z target + 45)%Q.
Proof.
  unfold nearFrequency. rewrite Qltb_true, Qabs_Qlt_condition.
  change (inject_Z FREQUENCY_TOLERANCE) with (45 # 1).
  split; intros [H1 H2]; split; lra.
Qed.

Lemma far_not_near (f : Q) (a b : Z) :
  nearFrequency f a = true -> 90 <= Z.abs (b - a) -> nearFrequency f b = false.
Proof.
  intros Ha Hfar. apply near_bounds in Ha as [Ha1 Ha2].
  destruct (nearFrequency f b) eqn:Hb; [|reflexivity].
  apply near_bounds in Hb as [Hb1 Hb2]. exfalso.
  destruct (Z.abs_spec (b - a)) as [[_ E] | [_ E]]; rewrite E in Hfar.
  - assert (H : (inject_Z a + 90 <= inject_Z b)%Q).
    { change 90%Q with (inject_Z 90). rewrite <- inject_Z_plus.
      rewrite <- Zle_Qle. lia. }
    lra.
  - assert (H : (inject_Z b + 90 <= inject_Z a)%Q).
    { change 90%Q with (inject_Z 90). rewrite <- inject_Z_plus.
      rewrite <- Zle_Qle. lia. }
    lra.
Qed.

Lemma frequencyToChar_loop_far (f : Q) (a : Z) (entries : list (ascii * Z)) :
  nearFrequency f a = true ->
  forallb (fun entry => 90 <=? Z.abs (snd entry - a)) entries = true ->
  frequencyToChar_loop entries f = None.
Proof.
  intros Ha.
  induction entries as [|[c cf] entries IH];
    cbn [frequencyToChar_loop forallb snd]; [reflexivity|].
  intros H. apply andb_true_iff in H as [Hfar Hrest].
  apply Z.leb_le in Hfar.
  pose proof (far_not_near f a cf Ha Hfar) as Hb.
  unfold nearFrequency in Hb. rewrite Hb. apply IH; assumption.
Qed.

Lemma profile_facts (cfg : Config) :
  cfg = whale \/ cfg = fast ->
  startMarkerClear cfg = true
  /\ 445 <= START_FREQUENCY cfg <= 8255
  /\ CHARACTER_LOCKOUT_TIME cfg <= recentWindow cfg.
Proof. intros [-> | ->]; vm_compute; repeat split; congruence. Qed.

Lemma qualifying_passes (cfg : Config) (tick : Tick) (s : DecoderState) :
  cfg = whale \/ cfg = fast ->
  qualifiesAsStart cfg tick = true ->
  debounced cfg (tickFrequency tick) (dateNow tick) s = false ->
  passesGuards cfg tick s = true.
Proof.
  intros Hcfg Hq Hdeb.
  destruct (profile_facts cfg Hcfg) as (_ & [Hlo Hhi] & _).
  unfold qualifiesAsStart in Hq. apply andb_true_iff in Hq as [Hnear Hstrong].
  apply near_bounds in Hnear as [Hn1 Hn2].
  apply Z.ltb_lt in Hstrong.
  unfold passesGuards. rewrite Hdeb. simpl.
  rewrite !andb_true_r. repeat (apply andb_true_iff; split).
  - apply Z.leb_le. lia.
  - unfold Qleb. apply negb_true_iff, Qltb_false.
    rewrite Zle_Qle in Hlo. unfold MINIMUM_VALID_FREQUENCY.
    change (inject_Z 445) with (445 # 1) in Hlo.
    change (inject_Z 400) with (400 # 1). lra.
  - unfold Qleb. apply negb_true_iff, Qltb_false.
    rewrite Zle_Qle in Hhi. unfold MAXIMUM_VALID_FREQUENCY.
    change (inject_Z 8255) with (8255 # 1) in Hhi.
    change (inject_Z 8300) with (8300 # 1). lra.
Qed.

Lemma decodeAll_cons (cfg : Config) (tick : Tick) (rest : list Tick)
  (s : DecoderState) :
  decodeAll cfg (tick :: rest) s =
  (fst (decodeAudio cfg tick s)
     :: fst (decodeAll cfg rest (snd (decodeAudio cfg tick s))),
   snd (decodeAll cfg rest (snd (decodeAudio cfg tick s)))).
Proof.
  cbn [decodeAll]. destruct (decodeAudio cfg tick s) as [event s1].
  cbn [fst snd]. destruct (decodeAll cfg rest s1); reflexivity.
Qed.

Tactic Notation "fields" :=
  cbn [isReceivingMessage messageBuffer startMarkerDetectionCount
       endMarkerDetectionCount lastDetectedFrequency lastDetectedTime
       lastDetectedChar transmissionStartTime recentCharacters
       charFrequencyCounts fst snd negb andb orb].

Tactic Notation "fields" "in" hyp(H) :=
  cbn [isReceivingMessage messageBuffer startMarkerDetectionCount
       endMarkerDetectionCount lastDetectedFrequency lastDetectedTime
       lastDetectedChar transmissionStartTime recentCharacters
       charFrequencyCounts fst snd negb andb orb] in H.

(** What a start-marker tick does to an idle decoder. *)
Lemma idle_marker_step (cfg : Config) (tick : Tick) (s : DecoderState) :
  cfg = whale \/ cfg = fast ->
  isReceivingMessage s = false ->
  qualifiesAsStart cfg tick = true ->
  debounced cfg (tickFrequency tick) (dateNow tick) s = false ->
  decodeAudio cfg tick s =
  if 2 <=? startMarkerDetectionCount s + 1 then
    (Some "[STREAM_START]"%string,
     {| isReceivingMessage := true;
        messageBuffer := EmptyString;
        startMarkerDetectionCount := 0;
        endMarkerDetectionCount := endMarkerDetectionCount s;
        lastDetectedFrequency := tickFrequency tick;
        lastDetectedTime := dateNow tick;
        lastDetectedChar := lastDetectedChar s;
        transmissionStartTime := dateNow tick;
        recentCharacters := [];
        charFrequencyCounts := [] |})
  else
    (None,
     {| isReceivingMessage := false;
        messageBuffer := messageBuffer s;
        startMarkerDetectionCount := startMarkerDetectionCount s + 1;
        endMarkerDetectionCount := endMarkerDetectionCount s;
        lastDetectedFrequency := tickFrequency tick;
        lastDetectedTime := dateNow tick;
        lastDetectedChar := lastDetectedChar s;
        transmissionStartTime := transmissionStartTime s;
        recentCharacters := recentCharacters s;
        charFrequencyCounts := charFrequencyCounts s |}).
Proof.
  intros Hcfg Hidle Hq Hdeb.
  rewrite decodeAudio_guarded by (apply qualifying_passes; assumption).
  unfold qualifiesAsStart in Hq. apply andb_true_iff in Hq as [Hnear Hstrong].
  unfold decodeDetection, recordDetection. rewrite Hstrong. fields.
  rewrite Hidle, Hnear. fields. reflexivity.
Qed.

(** What a start-marker tick does to a receiving decoder, short of the
    timeout: nothing but the bookkeeping. *)
Lemma receiving_marker_step (cfg : Config) (tick : Tick) (s : DecoderState) :
  cfg = whale \/ cfg = fast ->
  isReceivingMessage s = true ->
  qualifiesAsStart cfg tick = true ->
  debounced cfg (tickFrequency tick) (dateNow tick) s = false ->
  dateNow tick - transmissionStartTime s <= timeoutCeiling cfg ->
  decodeAudio cfg tick s =
  (None,
   {| isReceivingMessage := true;
      messageBuffer := messageBuffer s;
      startMarkerDetectionCount := startMarkerDetectionCount s;
      endMarkerDetectionCount := 0;
      lastDetectedFrequency := tickFrequency tick;
      lastDetectedTime := dateNow tick;
      lastDetectedChar := lastDetectedChar s;
      transmissionStartTime := transmissionStartTime s;
      recentCharacters := recentCharacters s;
      charFrequencyCounts := charFrequencyCounts s |}).
Proof.
  intros Hcfg Hrecv Hq Hdeb Hlate.
  rewrite decodeAudio_guarded by (apply qualifying_passes; assumption).
  destruct (profile_facts cfg Hcfg) as (Hclear & _ & _).
  unfold startMarkerClear in Hclear.
  apply andb_true_iff in Hclear as [Hend Htable]. apply Z.leb_le in Hend.
  unfold qualifiesAsStart in Hq. apply andb_true_iff in Hq as [Hnear Hstrong].
  unfold decodeDetection, recordDetection. rewrite Hstrong. fields.
  rewrite Hrecv. fields.
  apply Z.ltb_ge in Hlate. rewrite Hlate.
  rewrite (far_not_near _ _ _ Hnear Hend). fields.
  unfold frequencyToChar.
  rewrite (frequencyToChar_loop_far _ _ _ Hnear Htable).
  destruct (_ && _); reflexivity.
Qed.

(** A run of start-marker ticks while receiving yields no event. *)
Lemma receiving_marker_run (cfg : Config) (rest : list Tick) :
  cfg = whale \/ cfg = fast ->
  forall s,
    isReceivingMessage s = true ->
    forallb (qualifiesAsStart cfg) rest = true ->
    spacedFrom cfg (lastDetectedFrequency s) (lastDetectedTime s) rest = true ->
    forallb (fun tick => dateNow tick - transmissionStartTime s <=? timeoutCeiling cfg)
            rest = true ->
    fst (decodeAll cfg rest s) = repeat None (length rest)
    /\ isReceivingMessage (snd (decodeAll cfg rest s)) = true
    /\ messageBuffer (snd (decodeAll cfg rest s)) = messageBuffer s
    /\ transmissionStartTime (snd (decodeAll cfg rest s)) = transmissionStartTime s
    /\ recentCharacters (snd (decodeAll cfg rest s)) = recentCharacters s.
Proof.
  intros Hcfg. induction rest as [|tick rest IH]; intros s Hrecv Hq Hsp Hlate.
  - simpl. auto.
  - cbn [forallb spacedFrom] in Hq, Hsp, Hlate.
    apply andb_true_iff in Hq as [Hq Hqs].
    apply andb_true_iff in Hsp as [Hsp Hsps].
    apply andb_true_iff in Hlate as [Hlate Hlates].
    apply negb_true_iff in Hsp. apply Z.leb_le in Hlate.
    rewrite decodeAll_cons.
    rewrite (receiving_marker_step cfg tick s Hcfg Hrecv Hq Hsp Hlate).
    cbn [fst snd length repeat].
    match goal with
    | |- context [decodeAll cfg rest ?s1] =>
        specialize (IH s1 eq_refl Hqs Hsps Hlates)
    end.
    fields. fields in IH.
    destruct IH as (-> & ? & ? & ? & ?). auto.
Qed.

(** C2, amended. In both profiles, on an idle decoder:
    - start-marker ticks of which none is debounced (each differs from the
      detection before it by 15 Hz or more, or comes [DEBOUNCE_TIME] or
      more after it) start the reception at the second one: fed to a decoder
      whose confirmation counter is 0, two or more such ticks (the later
      ones within the timeout ceiling of the second) yield exactly one
      ["[STREAM_START]"], at the second tick, and leave the decoder
      receiving with an empty buffer, the time of the second tick as
      [transmissionStartTime] and no recent character;
    - a single such tick yields nothing and sets the counter to 1;
    - a tick that does not match the start marker and gets past the
      signal-threshold, frequency-range and debounce tests resets the
      counter to 0;
    - a tick that one of these three tests stops leaves the decoder, and
      so the counter, as it was. *)
Theorem start_marker_confirmation (cfg : Config) :
  cfg = whale \/ cfg = fast ->
  (forall s t1 t2 rest,
      isReceivingMessage s = false ->
      startMarkerDetectionCount s = 0 ->
      forallb (qualifiesAsStart cfg) (t1 :: t2 :: rest) = true ->
      spacedFrom cfg (lastDetectedFrequency s) (lastDetectedTime s)
                 (t1 :: t2 :: rest) = true ->
      forallb (fun tick => dateNow tick - dateNow t2 <=? timeoutCeiling cfg) rest
      = true ->
      let run := decodeAll cfg (t1 :: t2 :: rest) s in
      fst run = None :: Some "[STREAM_START]"%string :: repeat None (length rest)
      /\ isReceivingMessage (snd run) = true
      /\ messageBuffer (snd run) = EmptyString
      /\ transmissionStartTime (snd run) = dateNow t2
      /\ recentCharacters (snd run) = [])
  /\ (forall s tick,
         isReceivingMessage s = false ->
         startMarkerDetectionCount s = 0 ->
         qualifiesAsStart cfg tick = true ->
         debounced cfg (tickFrequency tick) (dateNow tick) s = false ->
         fst (decodeAudio cfg tick s) = None
         /\ isReceivingMessage (snd (decodeAudio cfg tick s)) = false
         /\ startMarkerDetectionCount (snd (decodeAudio cfg tick s)) = 1)
  /\ (forall s tick,
         isReceivingMessage s = false ->
         qualifiesAsStart cfg tick = false ->
         passesGuards cfg tick s = true ->
         fst (decodeAudio cfg tick s) = None
         /\ isReceivingMessage (snd (decodeAudio cfg tick s)) = false
         /\ startMarkerDetectionCount (snd (decodeAudio cfg tick s)) = 0)
  /\ (forall s tick,
         passesGuards cfg tick s = false -> decodeAudio cfg tick s = (None, s)).
Proof.
  intros Hcfg. split; [|split; [|split; [|intros s tick; apply decodeAudio_stopped]]].
  - intros s t1 t2 rest Hidle Hcount Hq Hsp Hlate run. subst run.
    cbn [forallb spacedFrom] in Hq, Hsp.
    apply andb_true_iff in Hq as [Hq1 Hq]. apply andb_true_iff in Hq as [Hq2 Hqs].
    apply andb_true_iff in Hsp as [Hsp1 Hsp].
    apply andb_true_iff in Hsp as [Hsp2 Hsps].
    apply negb_true_iff in Hsp1, Hsp2.
    rewrite !decodeAll_cons.
    rewrite (idle_marker_step cfg t1 s Hcfg Hidle Hq1 Hsp1), Hcount.
    cbn [Z.add Z.leb Z.compare Pos.compare Pos.compare_cont fst snd].
    rewrite idle_marker_step; [|assumption|reflexivity|assumption|exact Hsp2].
    fields. cbn [Z.add Z.leb Z.compare Pos.compare Pos.compare_cont Pos.add].
    match goal with
    | |- context [decodeAll cfg rest ?s2] =>
        pose proof (receiving_marker_run cfg rest Hcfg s2 eq_refl Hqs Hsps Hlate)
          as Hrun
    end.
    fields. fields in Hrun.
    destruct Hrun as (-> & ? & ? & ? & ?). auto.
  - intros s tick Hidle Hcount Hq Hdeb.
    rewrite (idle_marker_step cfg tick s Hcfg Hidle Hq Hdeb), Hcount.
    cbn. auto.
  - intros s tick Hidle Hq Hguards.
    rewrite decodeAudio_guarded by assumption.
    unfold qualifiesAsStart in Hq.
    unfold decodeDetection.
    rewrite recordDetection_receiving, Hidle. fields.
    rewrite Hq. fields. auto.
Qed.

Lemma start_marker_confirmation_witness :
  let t1 := tickAt (snapshot 43 200) 1000 in
  let t2 := tickAt (snapshot 43 200) 1400 in
  let t3 := tickAt (snapshot 43 200) 1800 in
  fst (decodeAll whale [t1; t2; t3] initialDecoder)
  = [None; Some "[STREAM_START]"%string; None]
  /\ startMarkerDetectionCount (snd (decodeAudio whale t1 initialDecoder)) = 1
  /\ startMarkerDetectionCount
       (snd (decodeAudio whale (tickAt (snapshot 64 200) 1400)
               (snd (decodeAudio whale t1 initialDecoder)))) = 0.
Proof.
  intros t1 t2 t3.
  pose proof (start_marker_confirmation whale (or_introl eq_refl))
    as (H1 & H2 & H3 & _).
  split; [|split].
  - apply (H1 initialDecoder t1 t2 [t3]); vm_compute; reflexivity.
  - apply (H2 initialDecoder t1); vm_compute; reflexivity.
  - apply (H3 (snd (decodeAudio whale t1 initialDecoder))
              (tickAt (snapshot 64 200) 1400)); vm_compute; reflexivity.
Defined.

(** ** C4: the character lockout *)










(** ** The encoder: what a run does to the audio graph *)

Lemma ensureAudioContextReady_usable (ctx : AudioContext) :
  usable ctx -> ensureAudioContextReady ctx = (true, resumed ctx).
Proof.
  unfold usable, ensureAudioContextReady, resumed.
  destruct ctx as [st onr t nodes]; simpl.
  intros [-> | [-> ->]]; reflexivity.
Qed.

Lemma ensureAudioContextReady_unusable (ctx : AudioContext) :
  unusable ctx -> ensureAudioContextReady ctx = (false, ctx).
Proof.
  unfold unusable, ensureAudioContextReady.
  intros [-> | [-> Hresume]]; [reflexivity|].
  destruct (ctx_onResume ctx); [contradiction|reflexivity|reflexivity].
Qed.

Lemma usable_or_unusable (ctx : AudioContext) : usable ctx \/ unusable ctx.
Proof.
  unfold usable, unusable.
  destruct (ctx_state ctx); [left; left; reflexivity| |right; left; reflexivity].
  destruct (ctx_onResume ctx).
  - left; right; split; reflexivity.
  - right; right; split; [reflexivity|discriminate].
  - right; right; split; [reflexivity|discriminate].
Qed.

Lemma playTone_running (cfg : Config) (ctx : AudioContext) (nodes : list NodeSet)
  (frequency : Z) (duration startTime volume : Q) :
  playTone cfg (withNodes (resumed ctx) nodes) frequency duration startTime volume
  = ((startTime + duration)%Q,
     withNodes (resumed ctx)
       (nodes ++ [playTone_nodes cfg frequency duration startTime volume])).
Proof. reflexivity. Qed.

Lemma withNodes_withNodes (ctx : AudioContext) (nodes nodes' : list NodeSet) :
  withNodes (withNodes ctx nodes) nodes' = withNodes ctx nodes'.
Proof. reflexivity. Qed.

Lemma ctx_nodes_withNodes (ctx : AudioContext) (nodes : list NodeSet) :
  ctx_nodes (withNodes ctx nodes) = nodes.
Proof. reflexivity. Qed.

Lemma createNodes_filter (cfg : Config) (characters : list ascii) :
  forall ctx,
    createNodes cfg characters ctx
    = createNodes cfg (List.filter (supported cfg) characters) ctx.
Proof.
  induction characters as [|char rest IH]; intros ctx; [reflexivity|].
  cbn [createNodes List.filter]. unfold supported at 1.
  destruct (charToFrequency cfg char =? 0) eqn:E; cbn [negb].
  - apply IH.
  - cbn [createNodes]. rewrite E, IH. reflexivity.
Qed.

Lemma createNodes_supported (cfg : Config) (characters : list ascii) :
  forallb (supported cfg) characters = true ->
  forall ctx nodes,
    createNodes cfg characters (withNodes ctx nodes)
    = (nodesFor cfg (length nodes) characters,
       withNodes ctx
         (nodes ++ List.map (fun char => createNodeSet cfg (charToFrequency cfg char))
                            characters)).
Proof.
  induction characters as [|char rest IH]; intros Hall ctx nodes.
  - cbn [createNodes nodesFor List.map]. rewrite app_nil_r. reflexivity.
  - cbn [forallb] in Hall. apply andb_true_iff in Hall as [Hchar Hrest].
    unfold supported in Hchar. apply negb_true_iff in Hchar.
    cbn [createNodes nodesFor List.map]. rewrite Hchar.
    rewrite withNodes_withNodes, ctx_nodes_withNodes.
    rewrite (IH Hrest). rewrite length_app, <- app_assoc. cbn [length app].
    rewrite Nat.add_1_r. reflexivity.
Qed.

Lemma alter_at_length {A : Type} (f : A -> A) (pre : list A) (x : A) (rest : list A) :
  alter f (length pre) (pre ++ x :: rest) = pre ++ f x :: rest.
Proof.
  induction pre as [|y pre IH]; [reflexivity|].
  cbn [length app]. change (alter f (S (length pre)) (y :: (pre ++ x :: rest)))
    with (y :: alter f (length pre) (pre ++ x :: rest)).
  rewrite IH. reflexivity.
Qed.

Lemma scheduleNode_at (cfg : Config) (ctx : AudioContext) (pre : list NodeSet)
  (set : NodeSet) (rest : list NodeSet) (node : AudioNodeSet) (currentTime : Q) :
  ns_handle node = length pre ->
  scheduleNode cfg node currentTime (withNodes ctx (pre ++ set :: rest))
  = withNodes ctx (pre ++ scheduleSet cfg currentTime set :: rest).
Proof.
  intros Hhandle. unfold scheduleNode, alterVoice, scheduleSet. rewrite Hhandle.
  cbn [withNodes ctx_nodes ctx_state ctx_onResume ctx_currentTime].
  rewrite alter_at_length. cbn [primary parallel].
  destruct (USE_PARALLEL_TONES cfg); [|reflexivity].
  cbn [withNodes ctx_nodes ctx_state ctx_onResume ctx_currentTime].
  rewrite alter_at_length. reflexivity.
Qed.

(** The scheduling loop on an unpaused transmission: it runs to its end,
    schedules the node sets in place, and only adds entries for its own
    nodes to [activeOscillators]. *)
Lemma scheduleLoop_unpaused (cfg : Config) (ctx : AudioContext)
  (characters : list ascii) :
  forall pre sets currentTime tx,
    length sets = length characters ->
    pauseControl cfg && isTransmissionPaused tx = false ->
    exists tx',
      scheduleLoop cfg (nodesFor cfg (length pre) characters) currentTime
                   (withNodes ctx (pre ++ sets)) tx
      = (Some (loopEnd cfg currentTime (length characters)),
         withNodes ctx (pre ++ scheduledSets cfg currentTime sets), tx')
      /\ isTransmissionPaused tx' = isTransmissionPaused tx
      /\ totalPausedDuration tx' = totalPausedDuration tx
      /\ (pauseControl cfg = false -> tx' = tx)
      /\ (forall low,
             (low <= length pre)%nat ->
             Forall (fun item => (low <= ao_handle item)%nat) (activeOscillators tx) ->
             Forall (fun item => (low <= ao_handle item)%nat) (activeOscillators tx')).
Proof.
  induction characters as [|char rest IH]; intros pre sets currentTime tx Hlen Hrun.
  - destruct sets; [|discriminate Hlen]. exists tx.
    cbn [nodesFor scheduleLoop loopEnd length scheduledSets]. auto.
  - destruct sets as [|set sets]; [discriminate Hlen|].
    injection Hlen as Hlen.
    cbn [nodesFor scheduleLoop loopEnd length scheduledSets]. rewrite Hrun.
    rewrite scheduleNode_at by reflexivity.
    set (tx1 := if pauseControl cfg then _ else tx).
    assert (Hrun1 : pauseControl cfg && isTransmissionPaused tx1 = false).
    { subst tx1. destruct (pauseControl cfg); [exact Hrun|reflexivity]. }
    replace (pre ++ scheduleSet cfg currentTime set :: sets)
      with ((pre ++ [scheduleSet cfg currentTime set]) ++ sets)
      by (rewrite <- app_assoc; reflexivity).
    replace (S (length pre)) with (length (pre ++ [scheduleSet cfg currentTime set]))
      by (rewrite length_app; cbn [length]; lia).
    destruct (IH (pre ++ [scheduleSet cfg currentTime set]) sets
                (currentTime + (CHARACTER_DURATION cfg + CHARACTER_GAP cfg))%Q
                tx1 Hlen Hrun1) as (tx' & Heq & Hp & Ht & Hsame & Hactive).
    exists tx'. rewrite Heq. rewrite <- app_assoc. cbn [app].
    split; [reflexivity|].
    assert (Hfields : isTransmissionPaused tx1 = isTransmissionPaused tx
                      /\ totalPausedDuration tx1 = totalPausedDuration tx).
    { subst tx1. destruct (pauseControl cfg); split; reflexivity. }
    destruct Hfields as [Hp1 Ht1].
    split; [congruence|]. split; [congruence|]. split.
    + intros Hoff. rewrite Hsame by exact Hoff. subst tx1. rewrite Hoff. reflexivity.
    + intros low Hlow Hold. apply Hactive.
      * rewrite length_app. cbn [length]. lia.
      * subst tx1. destruct (pauseControl cfg); [|exact Hold].
        cbn [activeOscillators]. unfold trackNode. cbn [ns_handle].
        destruct (USE_PARALLEL_TONES cfg);
          [destruct (voiceAt _ _ _)|];
          repeat (apply Forall_app; split); try exact Hold;
          apply Forall_cons; cbn [ao_handle]; auto.
Qed.

Lemma forallb_filter_same {A : Type} (p : A -> bool) (l : list A) :
  forallb p (List.filter p l) = true.
Proof.
  induction l as [|x l IH]; [reflexivity|].
  cbn [List.filter]. destruct (p x) eqn:E; [|exact IH].
  cbn [forallb]. rewrite E, IH. reflexivity.
Qed.

(** A run on a usable backend. *)
Lemma encodeText_usable (cfg : Config) (text : string) (ctx : AudioContext)
  (tx : TransmissionState) :
  usable ctx ->
  exists ms tx',
    encodeText cfg text ctx tx
    = {| settled := Fulfilled ms;
         audio := withNodes (resumed ctx) (ctx_nodes ctx ++ transmissionNodes cfg text ctx);
         transmission := tx' |}
    /\ (pauseControl cfg = false -> tx' = tx)
    /\ (pauseControl cfg = true ->
        isTransmissionPaused tx' = false
        /\ totalPausedDuration tx' = 0%Q
        /\ Forall (fun item => (length (ctx_nodes ctx) <= ao_handle item)%nat)
                  (activeOscillators tx')).
Proof.
  intros Husable. unfold encodeText.
  rewrite (ensureAudioContextReady_usable ctx Husable). cbn [negb].
  change (resumed ctx) with (withNodes (resumed ctx) (ctx_nodes ctx)) at 1.
  rewrite playTone_running.
  rewrite createNodes_filter.
  fold (encodedCharacters cfg text).
  rewrite createNodes_supported by apply forallb_filter_same.
  set (tx0 := if pauseControl cfg then _ else tx).
  assert (Hrun : pauseControl cfg && isTransmissionPaused tx0 = false).
  { subst tx0. destruct (pauseControl cfg); reflexivity. }
  match goal with
  | |- context [scheduleLoop cfg (nodesFor cfg (length ?pre) ?chars) ?t
                             (withNodes ?c (?pre ++ ?sets)) tx0] =>
      destruct (scheduleLoop_unpaused cfg c chars pre sets t tx0
                  (length_map _ _) Hrun)
        as (tx' & Heq & Hp & Ht & Hsame & Hactive);
      rewrite Heq
  end.
  rewrite playTone_running.
  eexists. exists tx'. split.
  - unfold transmissionNodes, firstCharacterTime.
    cbn [ctx_currentTime resumed]. rewrite <- !app_assoc. reflexivity.
  - split.
    + intros Hoff. rewrite (Hsame Hoff). subst tx0. rewrite Hoff. reflexivity.
    + intros Hon. subst tx0. rewrite Hon in *.
      cbn [isTransmissionPaused totalPausedDuration activeOscillators] in *.
      repeat split; try assumption.
      apply Hactive; [rewrite length_app; lia|constructor].
Qed.

(** A run on an unusable backend. *)
Lemma encodeText_unusable (cfg : Config) (text : string) (ctx : AudioContext)
  (tx : TransmissionState) :
  unusable ctx ->
  encodeText cfg text ctx tx
  = {| settled := Fulfilled 0;
       audio := ctx;
       transmission :=
         if pauseControl cfg then
           {| isTransmissionPaused := false;
              pauseStartTime := pauseStartTime tx;
              totalPausedDuration := 0;
              activeOscillators := [] |}
         else tx |}.
Proof.
  intros Hun. unfold encodeText.
  rewrite (ensureAudioContextReady_unusable ctx Hun). reflexivity.
Qed.

(** ** C8: the encoder on an unusable backend *)

(** C8. In both profiles (in any profile), for every text and pause state:
    when the audio backend is unusable, [encodeText] resolves its promise at
    once and leaves the audio context as it was, with no node created and no
    tone scheduled; the promise is not rejected. *)
Theorem encodeText_aborts_when_unusable (cfg : Config) (text : string)
  (ctx : AudioContext) (tx : TransmissionState) :
  unusable ctx ->
  settled (encodeText cfg text ctx tx) = Fulfilled 0
  /\ audio (encodeText cfg text ctx tx) = ctx.
Proof.
  intros Hun. rewrite (encodeText_unusable cfg text ctx tx Hun). split; reflexivity.
Qed.

Lemma encodeText_aborts_when_unusable_witness :
  settled (encodeText whale "HI" closedContext initialTransmission) = Fulfilled 0
  /\ audio (encodeText whale "HI" closedContext initialTransmission) = closedContext.
Proof.
  apply encodeText_aborts_when_unusable. left. reflexivity.
Defined.

(** ** C10: a transmission starts from a clean pause state *)

(** C10. In the whale profile, every call to [encodeText] behaves as a call
    made with [isTransmissionPaused = false], [totalPausedDuration = 0] and
    an empty [activeOscillators], whatever these were before: the wait of
    the scheduling loop is never entered (the promise is not left pending),
    and when the call returns the transmission is not paused,
    [getTotalPausedDuration] is 0 and [activeOscillators] tracks only nodes
    created by this very call. *)
Theorem encodeText_resets_pause_state (text : string) (ctx : AudioContext)
  (tx : TransmissionState) :
  let clean :=
    {| isTransmissionPaused := false;
       pauseStartTime := pauseStartTime tx;
       totalPausedDuration := 0;
       activeOscillators := [] |} in
  let run := encodeText whale text ctx tx in
  run = encodeText whale text ctx clean
  /\ settled run <> Pending
  /\ getTransmissionPauseState (transmission run) = false
  /\ getTotalPausedDuration (transmission run) = 0%Q
  /\ Forall (fun item => (length (ctx_nodes ctx) <= ao_handle item)%nat)
            (activeOscillators (transmission run)).
Proof.
  intros clean run. split; [reflexivity|]. subst run.
  unfold getTransmissionPauseState, getTotalPausedDuration.
  destruct (usable_or_unusable ctx) as [Hok | Hun].
  - destruct (encodeText_usable whale text ctx tx Hok) as (ms & tx' & -> & _ & Hon).
    destruct (Hon eq_refl) as (Hp & Ht & Hactive).
    cbn [settled transmission]. repeat split; try assumption. discriminate.
  - rewrite (encodeText_unusable whale text ctx tx Hun).
    cbn [settled transmission pauseControl whale isTransmissionPaused
         totalPausedDuration activeOscillators].
    repeat split; try constructor. discriminate.
Qed.

(** ** C7: pausing *)

(** C7 fails as stated: after the whale encoder has scheduled ["A"], a
    pause leaves the one entry of [activeOscillators] in place. *)
Lemma pauseTransmission_keeps_record :
  let run := encodeText whale "A" runningContext initialTransmission in
  let paused := pauseTransmission 1000 (audio run) (transmission run) in
  isTransmissionPaused (transmission run) = false
  /\ activeOscillators (transmission run) <> []
  /\ isTransmissionPaused (snd paused) = true
  /\ activeOscillators (snd paused) = activeOscillators (transmission run).
Proof. vm_compute. repeat split; congruence. Qed.

Lemma voiceAt_alterVoice (f : Voice -> Voice) (handle : nat) (slot : Slot)
  (ctx : AudioContext) (handle' : nat) (slot' : Slot) :
  voiceAt (alterVoice f handle slot ctx) handle' slot'
  = if Nat.eqb handle handle' && slot_eqb slot slot'
    then option_map f (voiceAt ctx handle' slot')
    else voiceAt ctx handle' slot'.
Proof.
  unfold voiceAt, alterVoice. cbn [withNodes ctx_nodes].
  rewrite list_lookup_alter.
  destruct (Nat.eqb_spec handle handle') as [<- | Hne].
  - rewrite decide_True by reflexivity.
    destruct (ctx_nodes ctx !! handle) as [set|]; destruct slot, slot';
      cbn; reflexivity.
  - rewrite decide_False by exact Hne. reflexivity.
Qed.

Lemma muteAll_voice (active : list ActiveOscillator) :
  forall ctx handle slot v,
    voiceAt ctx handle slot = Some v ->
    voiceAt (muteAll active ctx) handle slot
    = Some (if tracked active handle slot then muteVoice v else v).
Proof.
  unfold muteAll.
  induction active as [|item active IH]; intros ctx handle slot v Hv;
    [exact Hv|].
  cbn [fold_left].
  change (tracked (item :: active) handle slot)
    with (Nat.eqb (ao_handle item) handle && slot_eqb (ao_slot item) slot
          || tracked active handle slot).
  pose proof (voiceAt_alterVoice muteVoice (ao_handle item) (ao_slot item) ctx
                handle slot) as Hstep.
  rewrite Hv in Hstep. cbn [option_map] in Hstep.
  destruct (Nat.eqb (ao_handle item) handle && slot_eqb (ao_slot item) slot).
  - rewrite (IH _ handle slot (muteVoice v) Hstep). cbn [orb].
    destruct (tracked active handle slot); reflexivity.
  - rewrite (IH _ handle slot v Hstep). cbn [orb]. reflexivity.
Qed.

(** C7, amended. When the transmission is not already paused,
    [pauseTransmission] marks it paused, forces the gain of every tracked
    active oscillator to zero (its automation is cancelled and the value 0
    set) and leaves the record of active oscillators as it is; the record is
    emptied by the [resumeTransmission] that follows. *)
Theorem pauseTransmission_mutes_tracked (now now' : Q) (ctx : AudioContext)
  (tx : TransmissionState) :
  isTransmissionPaused tx = false ->
  let paused := pauseTransmission now ctx tx in
  isTransmissionPaused (snd paused) = true
  /\ activeOscillators (snd paused) = activeOscillators tx
  /\ (forall item v,
         In item (activeOscillators tx) ->
         voiceAt ctx (ao_handle item) (ao_slot item) = Some v ->
         exists v',
           voiceAt (fst paused) (ao_handle item) (ao_slot item) = Some v'
           /\ gain_events v' = [SetValueAtTime 0 0])
  /\ activeOscillators (resumeTransmission now' (snd paused)) = [].
Proof.
  intros Hrun paused. subst paused. unfold pauseTransmission.
  rewrite Hrun. cbn [negb fst snd isTransmissionPaused activeOscillators].
  split; [reflexivity|]. split; [reflexivity|]. split; [|reflexivity].
  intros item v Hin Hv.
  rewrite (muteAll_voice _ _ _ _ v Hv).
  replace (tracked (activeOscillators tx) (ao_handle item) (ao_slot item)) with true.
  - exists (muteVoice v). split; reflexivity.
  - symmetry. apply existsb_exists. exists item. split; [exact Hin|].
    rewrite Nat.eqb_refl. destruct (ao_slot item); reflexivity.
Qed.

Lemma pauseTransmission_mutes_tracked_witness :
  let run := encodeText whale "A" runningContext initialTransmission in
  let paused := pauseTransmission 1000 (audio run) (transmission run) in
  isTransmissionPaused (snd paused) = true
  /\ activeOscillators (snd paused) = activeOscillators (transmission run)
  /\ (forall item v,
         In item (activeOscillators (transmission run)) ->
         voiceAt (audio run) (ao_handle item) (ao_slot item) = Some v ->
         exists v',
           voiceAt (fst paused) (ao_handle item) (ao_slot item) = Some v'
           /\ gain_events v' = [SetValueAtTime 0 0])
  /\ activeOscillators (resumeTransmission 2000 (snd paused)) = [].
Proof.
  apply (pauseTransmission_mutes_tracked 1000 2000). vm_compute. reflexivity.
Defined.

(** ** C6: the schedule of a transmission *)

Lemma toUpperCase_char_idempotent (c : ascii) :
  toUpperCase_char (toUpperCase_char c) = toUpperCase_char c.
Proof. destruct c as [[] [] [] [] [] [] [] []]; reflexivity. Qed.

Lemma charToFrequency_upper (cfg : Config) (c : ascii) :
  charToFrequency cfg (toUpperCase_char c) = charToFrequency cfg c.
Proof. unfold charToFrequency. rewrite toUpperCase_char_idempotent. reflexivity. Qed.

Lemma split_chars_toUpperCase (text : string) :
  split_chars (toUpperCase text) = List.map toUpperCase_char (split_chars text).
Proof.
  unfold split_chars. induction text as [|c text IH]; [reflexivity|].
  cbn [toUpperCase list_ascii_of_string List.map]. rewrite IH. reflexivity.
Qed.

Lemma length_split_chars (text : string) :
  length (split_chars text) = String.length text.
Proof.
  unfold split_chars. induction text as [|c text IH]; [reflexivity|].
  cbn [list_ascii_of_string length String.length]. rewrite IH. reflexivity.
Qed.

Lemma filter_all {A : Type} (p : A -> bool) (l : list A) :
  forallb p l = true -> List.filter p l = l.
Proof.
  induction l as [|x l IH]; [reflexivity|].
  cbn [forallb List.filter]. intros H. apply andb_true_iff in H as [Hx Hl].
  rewrite Hx, (IH Hl). reflexivity.
Qed.

Lemma encodedCharacters_supported (cfg : Config) (text : string) :
  forallb (supported cfg) (split_chars text) = true ->
  encodedCharacters cfg text = List.map toUpperCase_char (split_chars text).
Proof.
  intros Hall. unfold encodedCharacters. rewrite split_chars_toUpperCase.
  apply filter_all. rewrite forallb_forall in *.
  intros c Hin. apply in_map_iff in Hin as (c0 & <- & Hin0).
  unfold supported. rewrite charToFrequency_upper. apply (Hall c0 Hin0).
Qed.

Lemma length_scheduledSets (cfg : Config) (sets : list NodeSet) :
  forall t, length (scheduledSets cfg t sets) = length sets.
Proof.
  induction sets as [|set sets IH]; intros t; [reflexivity|].
  cbn [scheduledSets length]. rewrite IH. reflexivity.
Qed.

Lemma frequencies_scheduledSets (cfg : Config) (characters : list ascii) :
  forall t,
    List.map (fun set => osc_frequency (primary set))
      (scheduledSets cfg t
         (List.map (fun char => createNodeSet cfg (charToFrequency cfg char)) characters))
    = List.map (charToFrequency cfg) characters.
Proof.
  induction characters as [|c characters IH]; intros t; [reflexivity|].
  cbn [List.map scheduledSets]. rewrite IH. reflexivity.
Qed.

Lemma doubled_scheduledSets (cfg : Config) (characters : list ascii) :
  forall t,
    List.map isDoubled
      (scheduledSets cfg t
         (List.map (fun char => createNodeSet cfg (charToFrequency cfg char)) characters))
    = List.map (fun _ => USE_PARALLEL_TONES cfg) characters.
Proof.
  induction characters as [|c characters IH]; intros t; [reflexivity|].
  cbn [List.map scheduledSets]. rewrite IH. f_equal.
  unfold isDoubled, scheduleSet, createNodeSet. cbn [parallel].
  destruct (USE_PARALLEL_TONES cfg); reflexivity.
Qed.

Lemma marker_not_doubled (cfg : Config) (duration startTime volume : Q) :
  isDoubled (playTone_nodes cfg (START_FREQUENCY cfg) duration startTime volume) = false
  /\ isDoubled (playTone_nodes cfg (END_FREQUENCY cfg) duration startTime volume) = false.
Proof.
  unfold isDoubled, playTone_nodes. cbn [parallel]. rewrite !Z.eqb_refl.
  cbn [negb]. rewrite !andb_false_r. split; reflexivity.
Qed.

Lemma inSequence_marker (cfg : Config) (after : Q) (frequency : Z)
  (duration startTime volume : Q) :
  (after < startTime)%Q -> (0 < duration)%Q ->
  forall rest,
    inSequence (startTime + duration)%Q rest = true ->
    inSequence after (playTone_nodes cfg frequency duration startTime volume :: rest)
    = true.
Proof.
  intros Hafter Hpos rest Hrest.
  cbn [inSequence playTone_nodes primary parallel osc_start osc_stop].
  rewrite Hrest, (proj2 (Qltb_true _ _) Hafter).
  replace (Qltb startTime (startTime + duration)) with true
    by (symmetry; apply Qltb_true; lra).
  cbn [andb].
  destruct (USE_PARALLEL_TONES cfg && negb (frequency =? START_FREQUENCY cfg)
            && negb (frequency =? END_FREQUENCY cfg)); [|reflexivity].
  unfold sameWindow. cbn [osc_start osc_stop]. rewrite !Qeq_bool_refl. reflexivity.
Qed.

Lemma inSequence_characters (cfg : Config) (characters : list ascii) :
  (0 < CHARACTER_DURATION cfg)%Q -> (0 < CHARACTER_GAP cfg)%Q ->
  forall after t last,
    (after < t)%Q ->
    (forall after', (after' < loopEnd cfg t (length characters))%Q ->
                    inSequence after' last = true) ->
    inSequence after
      (scheduledSets cfg t
         (List.map (fun char => createNodeSet cfg (charToFrequency cfg char)) characters)
       ++ last) = true.
Proof.
  intros Hduration Hgap.
  induction characters as [|c characters IH]; intros after t last Hafter Hlast.
  - cbn [List.map scheduledSets app]. apply Hlast. exact Hafter.
  - cbn [List.map scheduledSets app inSequence scheduleSet createNodeSet
         primary parallel scheduleVoice osc_start osc_stop].
    rewrite (proj2 (Qltb_true _ _) Hafter).
    replace (Qltb t (t + CHARACTER_DURATION cfg)) with true
      by (symmetry; apply Qltb_true; lra).
    rewrite IH; [| lra | exact Hlast].
    destruct (USE_PARALLEL_TONES cfg); [|reflexivity].
    unfold sameWindow.
    cbn [option_map scheduleVoice osc_start osc_stop].
    rewrite !Qeq_bool_refl. reflexivity.
Qed.

Lemma profile_timing (cfg : Config) :
  cfg = whale \/ cfg = fast ->
  (0 < START_MARKER_DURATION cfg)%Q /\ (0 < END_MARKER_DURATION cfg)%Q
  /\ (0 < CHARACTER_DURATION cfg)%Q /\ (0 < CHARACTER_GAP cfg)%Q.
Proof. intros [-> | ->]; repeat split. Qed.

(** C6. In both profiles, on a usable backend, for every text made of
    supported characters only: [encodeText] leaves the nodes that were in
    the graph untouched and adds exactly [len(text) + 2] tones, the start
    marker first, then one tone per character in the order of the text at
    the frequency of that character, the end marker last; every tone is
    scheduled, and each starts after the one before it has stopped, so that
    the start times increase strictly and no two tones overlap.  A tone is
    an oscillator together with the second oscillator that parallel-tone
    mode creates alongside it, which sounds over the same interval: the
    markers have none, the character tones have one exactly when
    [USE_PARALLEL_TONES] is set. *)
Theorem encodeText_schedule (cfg : Config) (text : string) (ctx : AudioContext)
  (tx : TransmissionState) :
  cfg = whale \/ cfg = fast ->
  usable ctx ->
  forallb (supported cfg) (split_chars text) = true ->
  let after := ctx_nodes (audio (encodeText cfg text ctx tx)) in
  let added := drop (length (ctx_nodes ctx)) after in
  take (length (ctx_nodes ctx)) after = ctx_nodes ctx
  /\ length added = (String.length text + 2)%nat
  /\ List.map (fun tone => osc_frequency (primary tone)) added
     = START_FREQUENCY cfg
       :: List.map (charToFrequency cfg) (split_chars text) ++ [END_FREQUENCY cfg]
  /\ inSequence (ctx_currentTime ctx) added = true
  /\ List.map isDoubled added
     = false :: List.map (fun _ => USE_PARALLEL_TONES cfg) (split_chars text) ++ [false].
Proof.
  intros Hcfg Husable Hsupported after added. subst added after.
  destruct (encodeText_usable cfg text ctx tx Husable) as (ms & tx' & -> & _).
  cbn [audio]. rewrite ctx_nodes_withNodes.
  rewrite take_app_length, drop_app_length.
  split; [reflexivity|].
  unfold transmissionNodes.
  rewrite (encodedCharacters_supported cfg text Hsupported).
  set (characters := List.map toUpperCase_char (split_chars text)).
  destruct (profile_timing cfg Hcfg) as (Hstart & Hend & Hduration & Hgap).
  split; [|split; [|split]].
  - rewrite !length_app, length_scheduledSets, length_map. subst characters.
    rewrite length_map, length_split_chars. cbn [length]. lia.
  - cbn [app List.map]. rewrite map_app, frequencies_scheduledSets.
    subst characters. rewrite List.map_map.
    cbn [List.map playTone_nodes primary osc_frequency].
    f_equal. f_equal.
    apply map_ext. intros c. apply charToFrequency_upper.
  - cbn [app]. apply inSequence_marker; [lra | exact Hstart |].
    apply inSequence_characters; [exact Hduration | exact Hgap | | ].
    + unfold firstCharacterTime. lra.
    + intros after' Hafter'.
      apply inSequence_marker; [lra | exact Hend | reflexivity].
  - cbn [app List.map]. rewrite map_app, doubled_scheduledSets.
    cbn [List.map].
    rewrite (proj1 (marker_not_doubled cfg _ _ _)),
      (proj2 (marker_not_doubled cfg _ _ _)).
    subst characters. rewrite List.map_map. reflexivity.
Qed.

Lemma encodeText_schedule_witness :
  let after := ctx_nodes (audio (encodeText fast "HI" runningContext initialTransmission)) in
  let added := drop (length (ctx_nodes runningContext)) after in
  take (length (ctx_nodes runningContext)) after = ctx_nodes runningContext
  /\ length added = (String.length "HI" + 2)%nat
  /\ List.map (fun tone => osc_frequency (primary tone)) added
     = START_FREQUENCY fast
       :: List.map (charToFrequency fast) (split_chars "HI") ++ [END_FREQUENCY fast]
  /\ inSequence (ctx_currentTime runningContext) added = true
  /\ List.map isDoubled added
     = false :: List.map (fun _ => USE_PARALLEL_TONES fast) (split_chars "HI") ++ [false].
Proof.
  apply (encodeText_schedule fast "HI" runningContext initialTransmission).
  - right; reflexivity.
  - left; reflexivity.
  - vm_compute; reflexivity.
Defined.
(** * Further properties of the decoder *)

(** ** The peak of a snapshot *)

Lemma peakLoop_spec (data : list Z) :
  forall i maxBin maxValue,
    let result := peakLoop data i maxBin maxValue in
    maxValue <= snd result
    /\ Forall (fun v => v <= snd result) data
    /\ ((result = (maxBin, maxValue))
        \/ (exists k : nat,
               data !! k = Some (snd result)
               /\ fst result = i + Z.of_nat k
               /\ maxValue < snd result
               /\ forall j v, (j < k)%nat -> data !! j = Some v -> v < snd result)).
Proof.
  induction data as [|v data IH]; intros i maxBin maxValue; cbn [peakLoop].
  - cbn. split; [lia|]. split; [constructor|]. left. reflexivity.
  - destruct (maxValue <? v) eqn:E.
    + apply Z.ltb_lt in E.
      destruct (IH (i + 1) i v) as (Hge & Hall & Hcase).
      cbn zeta in *. set (result := peakLoop data (i + 1) i v) in *.
      split; [lia|]. split; [constructor; [exact Hge|exact Hall]|].
      right. destruct Hcase as [Heq | (k & Hk & Hbin & Hlt & Hfirst)].
      * exists 0%nat. rewrite Heq. cbn. repeat split; try lia.
      * exists (S k). cbn [lookup list_lookup]. repeat split; try lia.
        -- exact Hk.
        -- intros [|j] w Hj Hw; cbn in Hw.
           ++ injection Hw as <-. lia.
           ++ apply (Hfirst j w); [lia|exact Hw].
    + apply Z.ltb_ge in E.
      destruct (IH (i + 1) maxBin maxValue) as (Hge & Hall & Hcase).
      cbn zeta in *. set (result := peakLoop data (i + 1) maxBin maxValue) in *.
      split; [exact Hge|]. split; [constructor; [lia|exact Hall]|].
      destruct Hcase as [Heq | (k & Hk & Hbin & Hlt & Hfirst)].
      * left. exact Heq.
      * right. exists (S k). cbn [lookup list_lookup]. repeat split; try lia.
        -- exact Hk.
        -- intros [|j] w Hj Hw; cbn in Hw.
           ++ injection Hw as <-. lia.
           ++ apply (Hfirst j w); [lia|exact Hw].
Qed.

(** X1. The peak loop of [decodeAudio] finds the largest value of the
    snapshot and the first bin that holds it: no bin exceeds [maxValue];
    when [maxValue] is positive, [maxBin] is a bin of the snapshot that
    holds it and every bin before it holds less; when no bin is positive
    (the snapshot may be empty), both stay 0. *)
Theorem peak_is_first_maximum (data : list Z) :
  let maxBin := fst (peak data) in
  let maxValue := snd (peak data) in
  0 <= maxValue
  /\ Forall (fun v => v <= maxValue) data
  /\ (maxValue = 0 -> maxBin = 0)
  /\ (0 < maxValue ->
      0 <= maxBin
      /\ data !! Z.to_nat maxBin = Some maxValue
      /\ forall j v, (j < Z.to_nat maxBin)%nat -> data !! j = Some v -> v < maxValue).
Proof.
  intros maxBin maxValue. subst maxBin maxValue. unfold peak.
  destruct (peakLoop_spec data 0 0 0) as (Hge & Hall & Hcase).
  cbn zeta in *. set (result := peakLoop data 0 0 0) in *.
  split; [exact Hge|]. split; [exact Hall|].
  destruct Hcase as [Heq | (k & Hk & Hbin & Hlt & Hfirst)].
  - rewrite Heq. cbn. split; [reflexivity|]. intros H; lia.
  - split; [intros H; lia|]. intros _.
    rewrite Hbin, Z.add_0_l, Nat2Z.id. split; [lia|]. split; assumption.
Qed.

Lemma peak_below (data : list Z) (bound : Z) :
  0 < bound -> Forall (fun v => v < bound) data -> snd (peak data) < bound.
Proof.
  intros Hpos Hall. unfold peak.
  destruct (peakLoop_spec data 0 0 0) as (_ & _ & Hcase). cbn zeta in Hcase.
  destruct Hcase as [-> | (k & Hk & _)]; [exact Hpos|].
  rewrite Forall_forall in Hall. apply Hall.
  apply list_elem_of_In, list_elem_of_lookup. exists k. exact Hk.
Qed.

(** X2. A snapshot in which every bin is below [SIGNAL_THRESHOLD], the
    empty snapshot included, makes [decodeAudio] return [null] and leaves
    the decoder state as it was, in whatever state the decoder is. *)
Theorem decodeAudio_ignores_weak_snapshot (cfg : Config) (tick : Tick)
  (s : DecoderState) :
  Forall (fun v => v < SIGNAL_THRESHOLD) (frequencyData tick) ->
  decodeAudio cfg tick s = (None, s).
Proof.
  intros Hweak. unfold decodeAudio.
  pose proof (peak_below (frequencyData tick) SIGNAL_THRESHOLD eq_refl Hweak) as Hpeak.
  destruct (peak (frequencyData tick)) as [maxBin maxValue]. cbn [snd] in Hpeak.
  apply Z.ltb_lt in Hpeak. rewrite Hpeak. reflexivity.
Qed.

Lemma decodeAudio_ignores_weak_snapshot_witness :
  decodeAudio whale
    {| frequencyData := []; sampleRate := 48000; dateNow := 70000; dateNowAdd := 70000 |}
    receivingH
  = (None, receivingH).
Proof.
  apply decodeAudio_ignores_weak_snapshot. constructor.
Defined.

(** ** The character map and the markers *)

Lemma isDigitKey_digitKeys (c : ascii) : isDigitKey c = true -> In c digitKeys.
Proof.
  destruct c as [[] [] [] [] [] [] [] []]; cbn; intros H;
    try discriminate H; tauto.
Qed.

Lemma In_Object_entries {V : Type} (o : list (ascii * V)) (entry : ascii * V) :
  In entry (Object_entries o) <-> In entry o.
Proof.
  unfold Object_entries. rewrite in_app_iff, in_flat_map. split.
  - intros [(d & _ & H) | H]; apply filter_In in H; tauto.
  - intros Hin. destruct (isDigitKey (fst entry)) eqn:E.
    + left. exists (fst entry). split; [apply isDigitKey_digitKeys; exact E|].
      apply filter_In. split; [exact Hin|apply ascii_eqb_refl].
    + right. apply filter_In. split; [exact Hin|]. rewrite E. reflexivity.
Qed.

Lemma frequencyToChar_loop_Some (entries : list (ascii * Z)) (f : Q) (c : ascii) :
  frequencyToChar_loop entries f = Some c ->
  exists cf, In (c, cf) entries /\ nearFrequency f cf = true.
Proof.
  induction entries as [|[c0 cf0] entries IH]; cbn [frequencyToChar_loop];
    [discriminate|].
  fold (nearFrequency f cf0). destruct (nearFrequency f cf0) eqn:E.
  - intros H. injection H as <-. exists cf0. split; [left; reflexivity|exact E].
  - intros H. destruct (IH H) as (cf & Hin & Hnear).
    exists cf. split; [right; exact Hin|exact Hnear].
Qed.

Lemma frequencyToChar_loop_None (entries : list (ascii * Z)) (f : Q) :
  frequencyToChar_loop entries f = None
  <-> forall c cf, In (c, cf) entries -> nearFrequency f cf = false.
Proof.
  induction entries as [|[c0 cf0] entries IH]; cbn [frequencyToChar_loop].
  - split; [intros _ c cf []|reflexivity].
  - fold (nearFrequency f cf0). destruct (nearFrequency f cf0) eqn:E.
    + split; [discriminate|]. intros H.
      specialize (H c0 cf0 (or_introl eq_refl)). congruence.
    + rewrite IH. split.
      * intros H c cf [Heq | Hin]; [injection Heq as <- <-; exact E|].
        apply (H c cf Hin).
      * intros H c cf Hin. apply (H c cf). right. exact Hin.
Qed.

Lemma bandsApart_same (universe : list (ascii * Z)) (a b : ascii * Z) (f : Q) :
  bandsApart universe = true ->
  In a universe -> In b universe ->
  nearFrequency f (snd a) = true -> nearFrequency f (snd b) = true ->
  a = b.
Proof.
  intros Hapart Ha Hb Hna Hnb. unfold bandsApart in Hapart.
  rewrite forallb_forall in Hapart. specialize (Hapart a Ha).
  rewrite forallb_forall in Hapart. specialize (Hapart b Hb).
  apply orb_true_iff in Hapart as [Heq | Hfar].
  - unfold entry_eqb in Heq. apply andb_true_iff in Heq as [Hc Hf].
    apply ascii_eqb_true in Hc. apply Z.eqb_eq in Hf.
    destruct a, b; cbn in *; congruence.
  - apply Z.leb_le in Hfar.
    pose proof (far_not_near f (snd b) (snd a) Hnb Hfar). congruence.
Qed.

Lemma frequencyToChar_loop_complete (universe entries : list (ascii * Z)) (f : Q)
  (c : ascii) (cf : Z) :
  bandsApart universe = true ->
  incl entries universe ->
  In (c, cf) entries ->
  nearFrequency f cf = true ->
  frequencyToChar_loop entries f = Some c.
Proof.
  intros Hapart. induction entries as [|[c0 cf0] entries IH];
    intros Hincl Hin Hnear; [destruct Hin|].
  cbn [frequencyToChar_loop]. fold (nearFrequency f cf0).
  destruct (nearFrequency f cf0) eqn:E.
  - assert (Hsame : (c0, cf0) = (c, cf)).
    { apply (bandsApart_same universe _ _ f Hapart); try assumption.
      - apply Hincl. left. reflexivity.
      - apply Hincl. exact Hin. }
    congruence.
  - destruct Hin as [Heq | Hin]; [injection Heq as -> ->; congruence|].
    apply IH; [|exact Hin|exact Hnear].
    intros e He. apply Hincl. right. exact He.
Qed.

Lemma profile_bands (cfg : Config) :
  cfg = whale \/ cfg = fast ->
  bandsApart (Object_entries (CHAR_FREQUENCIES cfg)) = true
  /\ endMarkerClear cfg = true.
Proof. intros [-> | ->]; vm_compute; split; reflexivity. Qed.

(** X3. In both profiles [frequencyToChar] is exact: it returns [c]
    exactly when [c] is a key of [CHAR_FREQUENCIES] whose frequency lies
    within [FREQUENCY_TOLERANCE] of the argument, and [null] exactly when
    no key does.  The bands of two keys never overlap, so the order in
    which the table is read decides nothing. *)
Theorem frequencyToChar_exact (cfg : Config) (f : Q) :
  cfg = whale \/ cfg = fast ->
  (forall c,
      frequencyToChar cfg f = Some c
      <-> exists cf, In (c, cf) (CHAR_FREQUENCIES cfg) /\ nearFrequency f cf = true)
  /\ (frequencyToChar cfg f = None
      <-> forall c cf, In (c, cf) (CHAR_FREQUENCIES cfg) -> nearFrequency f cf = false).
Proof.
  intros Hcfg. destruct (profile_bands cfg Hcfg) as [Hapart _].
  unfold frequencyToChar. split.
  - intros c. split.
    + intros H. apply frequencyToChar_loop_Some in H as (cf & Hin & Hnear).
      exists cf. split; [apply In_Object_entries; exact Hin|exact Hnear].
    + intros (cf & Hin & Hnear).
      apply (frequencyToChar_loop_complete _ _ f c cf Hapart);
        [intros e He; exact He|apply In_Object_entries; exact Hin|exact Hnear].
  - rewrite frequencyToChar_loop_None. split.
    + intros H c cf Hin. apply (H c cf). apply In_Object_entries. exact Hin.
    + intros H c cf Hin. apply (H c cf). apply In_Object_entries. exact Hin.
Qed.

Lemma frequencyToChar_exact_witness :
  (forall c,
      frequencyToChar fast (6420 # 1) = Some c
      <-> exists cf, In (c, cf) (CHAR_FREQUENCIES fast)
                     /\ nearFrequency (6420 # 1) cf = true)
  /\ (frequencyToChar fast (6420 # 1) = None
      <-> forall c cf, In (c, cf) (CHAR_FREQUENCIES fast)
                       -> nearFrequency (6420 # 1) cf = false).
Proof.
  apply frequencyToChar_exact. right. reflexivity.
Defined.

(** X4. In both profiles the markers are no characters and no two symbols
    share a frequency: a frequency within tolerance of [START_FREQUENCY] or
    of [END_FREQUENCY] maps to no character, and no frequency is within
    tolerance of both markers. *)
Theorem markers_are_not_characters (cfg : Config) (f : Q) :
  cfg = whale \/ cfg = fast ->
  (nearFrequency f (START_FREQUENCY cfg) = true \/
   nearFrequency f (END_FREQUENCY cfg) = true ->
   frequencyToChar cfg f = None)
  /\ nearFrequency f (START_FREQUENCY cfg) && nearFrequency f (END_FREQUENCY cfg)
     = false.
Proof.
  intros Hcfg.
  destruct (profile_facts cfg Hcfg) as (Hstart & _ & _).
  destruct (profile_bands cfg Hcfg) as [_ Hend].
  unfold startMarkerClear in Hstart.
  apply andb_true_iff in Hstart as [Hmarkers Hstart]. apply Z.leb_le in Hmarkers.
  split.
  - unfold frequencyToChar. intros [Hnear | Hnear].
    + apply (frequencyToChar_loop_far f _ _ Hnear Hstart).
    + apply (frequencyToChar_loop_far f _ _ Hnear Hend).
  - destruct (nearFrequency f (START_FREQUENCY cfg)) eqn:E; [|reflexivity].
    rewrite (far_not_near f _ _ E Hmarkers). reflexivity.
Qed.

Lemma markers_are_not_characters_witness :
  (nearFrequency (1007 # 1) (START_FREQUENCY whale) = true \/
   nearFrequency (1007 # 1) (END_FREQUENCY whale) = true ->
   frequencyToChar whale (1007 # 1) = None)
  /\ nearFrequency (1007 # 1) (START_FREQUENCY whale)
     && nearFrequency (1007 # 1) (END_FREQUENCY whale) = false.
Proof.
  apply markers_are_not_characters. left. reflexivity.
Defined.

(** ** The receiving state *)

(** Every call yields one of five outcomes: nothing, with the reception
    flag and the buffer as they were; the start of a stream; its end by the
    end marker; its end by the timeout; or one character, appended to the
    buffer. *)
Lemma decodeDetection_outcome cfg maxValue f t now s :
  let result := decodeDetection cfg maxValue f t now s in
  (fst result = None
   /\ isReceivingMessage (snd result) = isReceivingMessage s
   /\ messageBuffer (snd result) = messageBuffer s)
  \/ (isReceivingMessage s = false
      /\ fst result = Some "[STREAM_START]"%string
      /\ isReceivingMessage (snd result) = true
      /\ messageBuffer (snd result) = EmptyString)
  \/ (isReceivingMessage s = true
      /\ (fst result = Some (endEvent (messageBuffer s))
          \/ fst result = Some (timeoutEvent (messageBuffer s)))
      /\ isReceivingMessage (snd result) = false
      /\ messageBuffer (snd result) = EmptyString)
  \/ (isReceivingMessage s = true
      /\ exists c,
           fst result = Some (streamEvent c)
           /\ isReceivingMessage (snd result) = true
           /\ messageBuffer (snd result) = (messageBuffer s ++ str1 c)%string).
Proof.
  unfold decodeDetection, endEvent, timeoutEvent, postProcessMessage.
  destruct (isReceivingMessage s) eqn:Hrecv; cbn [andb negb].
  - destruct (timeoutCeiling cfg <? t - transmissionStartTime s).
    + right; right; left. split; [reflexivity|].
      destruct (0 <? String.length (messageBuffer s))%nat; cbn [fst snd];
        fields; auto.
    + destruct (nearFrequency f (END_FREQUENCY cfg) && (SIGNAL_THRESHOLD <? maxValue)).
      * destruct (2 <=? endMarkerDetectionCount s + 1).
        -- right; right; left. split; [reflexivity|].
           destruct (0 <? String.length (messageBuffer s))%nat; cbn [fst snd];
             fields; auto.
        -- left. fields. auto.
      * destruct (Qgeb f (inject_Z MINIMUM_VALID_FREQUENCY)
                  && Qleb f (inject_Z MAXIMUM_VALID_FREQUENCY));
          [|left; fields; auto].
        destruct (frequencyToChar cfg f) as [char|]; [|left; fields; auto].
        destruct (shouldAddCharacter cfg (toUpperCase_char char) now
                    (recentCharacters s)) as [[|] rc].
        -- right; right; right. split; [reflexivity|].
           exists (toUpperCase_char char). fields. auto.
        -- left. fields. auto.
  - destruct (nearFrequency f (START_FREQUENCY cfg) && (SIGNAL_THRESHOLD <? maxValue)).
    + destruct (2 <=? startMarkerDetectionCount s + 1).
      * right; left. fields. auto.
      * left. fields. auto.
    + left. fields. auto.
Qed.

Lemma decodeAudio_outcome (cfg : Config) (tick : Tick) (s : DecoderState) :
  let result := decodeAudio cfg tick s in
  (fst result = None
   /\ isReceivingMessage (snd result) = isReceivingMessage s
   /\ messageBuffer (snd result) = messageBuffer s)
  \/ (isReceivingMessage s = false
      /\ fst result = Some "[STREAM_START]"%string
      /\ isReceivingMessage (snd result) = true
      /\ messageBuffer (snd result) = EmptyString)
  \/ (isReceivingMessage s = true
      /\ (fst result = Some (endEvent (messageBuffer s))
          \/ fst result = Some (timeoutEvent (messageBuffer s)))
      /\ isReceivingMessage (snd result) = false
      /\ messageBuffer (snd result) = EmptyString)
  \/ (isReceivingMessage s = true
      /\ exists c,
           fst result = Some (streamEvent c)
           /\ isReceivingMessage (snd result) = true
           /\ messageBuffer (snd result) = (messageBuffer s ++ str1 c)%string).
Proof.
  cbn zeta. destruct (passesGuards cfg tick s) eqn:Hg.
  - rewrite decodeAudio_guarded by assumption.
    pose proof (decodeDetection_outcome cfg (tickStrength tick) (tickFrequency tick)
                  (dateNow tick) (dateNowAdd tick)
                  (recordDetection (tickStrength tick) (tickFrequency tick)
                     (dateNow tick) s)) as H.
    cbn zeta in H.
    rewrite recordDetection_receiving, recordDetection_buffer in H. exact H.
  - rewrite decodeAudio_stopped by assumption. left. cbn. auto.
Qed.

Lemma frameStep_start (buffer : string) :
  frameStep (false, buffer) (Some "[STREAM_START]"%string) = Some (true, EmptyString).
Proof. reflexivity. Qed.

Lemma frameStep_end (buffer : string) :
  frameStep (true, buffer) (Some (endEvent buffer)) = Some (false, EmptyString)
  /\ frameStep (true, buffer) (Some (timeoutEvent buffer)) = Some (false, EmptyString).
Proof.
  unfold frameStep. cbn [fst snd andb].
  rewrite !String.eqb_refl, orb_true_r.
  unfold endEvent, timeoutEvent.
  destruct (0 <? String.length buffer)%nat; split; reflexivity.
Qed.

Lemma frameStep_stream (buffer : string) (c : ascii) :
  frameStep (true, buffer) (Some (streamEvent c))
  = Some (true, (buffer ++ str1 c)%string).
Proof.
  unfold frameStep, endEvent, timeoutEvent. cbn [fst snd andb].
  destruct (0 <? String.length buffer)%nat; reflexivity.
Qed.

Lemma frameStep_decodeAudio (cfg : Config) (tick : Tick) (s : DecoderState) :
  frameStep (isReceivingMessage s, messageBuffer s) (fst (decodeAudio cfg tick s))
  = Some (isReceivingMessage (snd (decodeAudio cfg tick s)),
          messageBuffer (snd (decodeAudio cfg tick s))).
Proof.
  destruct (decodeAudio_outcome cfg tick s)
    as [(-> & -> & ->) | [(Hidle & -> & -> & ->)
       | [(Hrecv & Hevent & -> & ->) | (Hrecv & c & -> & -> & ->)]]].
  - reflexivity.
  - rewrite Hidle. apply frameStep_start.
  - rewrite Hrecv. destruct Hevent as [-> | ->]; apply frameStep_end.
  - rewrite Hrecv. apply frameStep_stream.
Qed.

(** X5. The events alone tell the state of the reception.  In every
    profile and from every decoder state, the events of any run of ticks
    are well framed: ["[STREAM_START]"] comes only while idle, a
    ["[STREAM]c"] or ["[STREAM_END]"] event only while receiving; and
    replaying them gives the decoder's own [isReceivingMessage] and
    [messageBuffer], so that every ["[STREAM_END]"] event, by marker or by
    timeout, carries exactly the characters streamed since the last
    ["[STREAM_START]"]. *)
Theorem events_frame_the_stream (cfg : Config) (ticks : list Tick)
  (s : DecoderState) :
  frameRun (isReceivingMessage s, messageBuffer s) (fst (decodeAll cfg ticks s))
  = Some (isReceivingMessage (snd (decodeAll cfg ticks s)),
          messageBuffer (snd (decodeAll cfg ticks s))).
Proof.
  revert s. induction ticks as [|tick ticks IH]; intros s; [reflexivity|].
  rewrite decodeAll_cons. cbn [fst snd frameRun].
  rewrite frameStep_decodeAudio. apply IH.
Qed.

(** What an end-marker tick does to a receiving decoder, short of the
    timeout. *)
Lemma receiving_end_step (cfg : Config) (tick : Tick) (s : DecoderState) :
  isReceivingMessage s = true ->
  qualifiesAsEnd cfg tick = true ->
  passesGuards cfg tick s = true ->
  dateNow tick - transmissionStartTime s <= timeoutCeiling cfg ->
  decodeAudio cfg tick s =
  if 2 <=? endMarkerDetectionCount s + 1 then
    (Some (endEvent (messageBuffer s)),
     {| isReceivingMessage := false;
        messageBuffer := EmptyString;
        startMarkerDetectionCount := startMarkerDetectionCount s;
        endMarkerDetectionCount := 0;
        lastDetectedFrequency := tickFrequency tick;
        lastDetectedTime := dateNow tick;
        lastDetectedChar := lastDetectedChar s;
        transmissionStartTime := transmissionStartTime s;
        recentCharacters := [];
        charFrequencyCounts := [] |})
  else
    (None,
     {| isReceivingMessage := true;
        messageBuffer := messageBuffer s;
        startMarkerDetectionCount := startMarkerDetectionCount s;
        endMarkerDetectionCount := endMarkerDetectionCount s + 1;
        lastDetectedFrequency := tickFrequency tick;
        lastDetectedTime := dateNow tick;
        lastDetectedChar := lastDetectedChar s;
        transmissionStartTime := transmissionStartTime s;
        recentCharacters := recentCharacters s;
        charFrequencyCounts := charFrequencyCounts s |}).
Proof.
  intros Hrecv Hq Hguards Hlate.
  rewrite decodeAudio_guarded by assumption.
  unfold qualifiesAsEnd in Hq. pose proof Hq as Hq'.
  apply andb_true_iff in Hq' as [Hnear Hstrong].
  unfold decodeDetection, recordDetection, endEvent, postProcessMessage.
  rewrite Hstrong. fields. rewrite Hrecv. fields.
  apply Z.ltb_ge in Hlate. rewrite Hlate, Hnear. fields.
  destruct (2 <=? endMarkerDetectionCount s + 1); [|reflexivity].
  destruct (0 <? String.length (messageBuffer s))%nat; reflexivity.
Qed.

(** X6. In every profile, while receiving and short of the timeout: two
    end-marker ticks that both get past the signal, range and debounce
    tests, fed to a decoder whose end-marker counter is 0, end the stream
    at the second tick, which returns ["[STREAM_END]"] followed by the
    buffer when it is not empty, turns the decoder idle and empties the
    buffer and the recent-character window; the first tick returns [null]. *)
Theorem end_marker_confirmation (cfg : Config) (tick1 tick2 : Tick)
  (s : DecoderState) :
  isReceivingMessage s = true ->
  endMarkerDetectionCount s = 0 ->
  qualifiesAsEnd cfg tick1 = true ->
  qualifiesAsEnd cfg tick2 = true ->
  passesGuards cfg tick1 s = true ->
  passesGuards cfg tick2 (snd (decodeAudio cfg tick1 s)) = true ->
  dateNow tick1 - transmissionStartTime s <= timeoutCeiling cfg ->
  dateNow tick2 - transmissionStartTime s <= timeoutCeiling cfg ->
  let run := decodeAll cfg [tick1; tick2] s in
  fst run = [None; Some (endEvent (messageBuffer s))]
  /\ isReceivingMessage (snd run) = false
  /\ messageBuffer (snd run) = EmptyString
  /\ recentCharacters (snd run) = []
  /\ endMarkerDetectionCount (snd run) = 0.
Proof.
  intros Hrecv Hcount Hq1 Hq2 Hg1 Hg2 Hlate1 Hlate2 run. subst run.
  rewrite !decodeAll_cons. cbn [decodeAll fst snd].
  rewrite (receiving_end_step cfg tick1 s Hrecv Hq1 Hg1 Hlate1) in *.
  rewrite Hcount in *.
  change (2 <=? 0 + 1) with false in *. cbn [fst snd] in *.
  match type of Hg2 with
  | passesGuards cfg tick2 ?s1 = true =>
      rewrite (receiving_end_step cfg tick2 s1 eq_refl Hq2 Hg2 Hlate2)
  end.
  fields. change (2 <=? 0 + 1 + 1) with true. fields. auto.
Qed.

Lemma end_marker_confirmation_witness :
  let run :=
    decodeAll whale [tickAt (snapshot 34 200) 6000; tickAt (snapshot 34 200) 6400]
              receivingH in
  fst run = [None; Some "[STREAM_END] H"%string]
  /\ isReceivingMessage (snd run) = false
  /\ messageBuffer (snd run) = EmptyString
  /\ recentCharacters (snd run) = []
  /\ endMarkerDetectionCount (snd run) = 0.
Proof.
  apply (end_marker_confirmation whale (tickAt (snapshot 34 200) 6000)
           (tickAt (snapshot 34 200) 6400) receivingH);
    vm_compute; try reflexivity; discriminate.
Defined.

Lemma shouldAddCharacter_absent (cfg : Config) (c : ascii) (now : Z)
  (window : list (ascii * Z)) :
  absentFrom c (retained cfg now window) = true ->
  shouldAddCharacter cfg c now window
  = (true, retained cfg now window ++ [(c, now)]).
Proof.
  intros Habsent. unfold shouldAddCharacter. fold (retained cfg now window).
  set (kept := retained cfg now window) in *.
  assert (Hlock : forall limit, lockedOut c now limit kept = false).
  { intros limit. unfold lockedOut. apply not_true_iff_false. intros H.
    apply existsb_exists in H as (e & He & Hc).
    unfold absentFrom in Habsent. rewrite forallb_forall in Habsent.
    specialize (Habsent e He). apply andb_true_iff in Hc as [Hc _].
    rewrite Hc in Habsent. discriminate. }
  rewrite !Hlock, andb_false_r.
  assert (Hloop : forall k, consecutiveLoop c (firstn k (rev kept)) 0 = false).
  { intros k. unfold absentFrom in Habsent. rewrite forallb_forall in Habsent.
    destruct (firstn k (rev kept)) as [|e rest] eqn:E; [reflexivity|].
    cbn [consecutiveLoop].
    assert (He : In e kept).
    { apply in_rev. rewrite <- (firstn_skipn k (rev kept)), E.
      left. reflexivity. }
    specialize (Habsent e He). apply negb_true_iff in Habsent.
    rewrite Habsent. reflexivity. }
  rewrite Hloop. reflexivity.
Qed.

(** X7. In both profiles, while receiving and short of the timeout, a tick
    that gets past the signal, range and debounce tests and whose peak
    frequency maps to a character held by no entry of the sliding window
    always streams it: the call returns ["[STREAM]"] followed by the
    character, appends it to [messageBuffer], records it as
    [lastDetectedChar] and adds it, with the time of the call, at the end of
    the retained window.  So the first character after a
    ["[STREAM_START]"] is never filtered. *)
Theorem absent_character_is_streamed (cfg : Config) (tick : Tick)
  (s : DecoderState) (c : ascii) :
  cfg = whale \/ cfg = fast ->
  isReceivingMessage s = true ->
  passesGuards cfg tick s = true ->
  dateNow tick - transmissionStartTime s <= timeoutCeiling cfg ->
  frequencyToChar cfg (tickFrequency tick) = Some c ->
  absentFrom (toUpperCase_char c)
             (retained cfg (dateNowAdd tick) (recentCharacters s)) = true ->
  let result := decodeAudio cfg tick s in
  fst result = Some (streamEvent (toUpperCase_char c))
  /\ isReceivingMessage (snd result) = true
  /\ messageBuffer (snd result) = (messageBuffer s ++ str1 (toUpperCase_char c))%string
  /\ lastDetectedChar (snd result) = str1 (toUpperCase_char c)
  /\ recentCharacters (snd result)
     = retained cfg (dateNowAdd tick) (recentCharacters s)
       ++ [(toUpperCase_char c, dateNowAdd tick)].
Proof.
  intros Hcfg Hrecv Hguards Hlate Hchar Habsent result. subst result.
  rewrite decodeAudio_guarded by assumption.
  assert (Hend : nearFrequency (tickFrequency tick) (END_FREQUENCY cfg) = false).
  { destruct (nearFrequency (tickFrequency tick) (END_FREQUENCY cfg)) eqn:E;
      [|reflexivity].
    destruct (profile_bands cfg Hcfg) as [_ Hclear].
    pose proof (frequencyToChar_loop_far _ _ _ E Hclear) as Hnone.
    unfold frequencyToChar in Hchar. congruence. }
  unfold passesGuards in Hguards.
  apply andb_true_iff in Hguards as [Hguards _].
  apply andb_true_iff in Hguards as [Hguards Hmax].
  apply andb_true_iff in Hguards as [_ Hmin].
  unfold decodeDetection.
  rewrite recordDetection_receiving, recordDetection_start, Hrecv. fields.
  apply Z.ltb_ge in Hlate. rewrite Hlate, Hend. fields.
  change (Qgeb (tickFrequency tick) (inject_Z MINIMUM_VALID_FREQUENCY))
    with (Qleb (inject_Z MINIMUM_VALID_FREQUENCY) (tickFrequency tick)).
  rewrite Hmin, Hmax, Hchar. fields.
  rewrite recordDetection_recent, (shouldAddCharacter_absent _ _ _ _ Habsent).
  fields. rewrite recordDetection_buffer. auto.
Qed.

Lemma absent_character_is_streamed_witness :
  let tick := tickAt (snapshot 64 200) 2000 in
  let result := decodeAudio whale tick receivingFresh in
  fst result = Some (streamEvent (toUpperCase_char "H"))
  /\ isReceivingMessage (snd result) = true
  /\ messageBuffer (snd result)
     = (messageBuffer receivingFresh ++ str1 (toUpperCase_char "H"))%string
  /\ lastDetectedChar (snd result) = str1 (toUpperCase_char "H")
  /\ recentCharacters (snd result)
     = retained whale (dateNowAdd tick) (recentCharacters receivingFresh)
       ++ [(toUpperCase_char "H", dateNowAdd tick)].
Proof.
  apply (absent_character_is_streamed whale (tickAt (snapshot 64 200) 2000)
           receivingFresh "H"%char);
    try (vm_compute; reflexivity).
  - left; reflexivity.
  - vm_compute. discriminate.
Defined.

(** X8. In the fast profile, a character whose one entry in the window is
    between 120 ms and 350 ms old is accepted again unless it belongs to
    the punctuation class of [shouldAddCharacter]: the second window, of
    350 ms, holds for punctuation only. *)
Theorem punctuation_has_a_longer_lockout (c : ascii) (t now : Z) :
  120 <= now - t < 350 ->
  fst (shouldAddCharacter fast c now [(c, t)]) = negb (matchesPunctuation c).
Proof.
  intros [Hlow Hhigh]. unfold shouldAddCharacter, lockedOut.
  cbn [List.filter snd fst recentWindow CHARACTER_LOCKOUT_TIME fast].
  replace (now - t <? 450) with true by (symmetry; apply Z.ltb_lt; lia).
  cbn [existsb fst snd length Nat.min rev app firstn consecutiveLoop].
  rewrite ascii_eqb_refl.
  replace (now - t <? 120) with false by (symmetry; apply Z.ltb_ge; lia).
  replace (now - t <? 350) with true by (symmetry; apply Z.ltb_lt; lia).
  cbn [andb orb negb Z.leb Z.add Z.compare Pos.compare Pos.compare_cont].
  destruct (isCommonRepeatingChar c), (ascii_eqb c " "), (matchesPunctuation c);
    reflexivity.
Qed.

Lemma punctuation_has_a_longer_lockout_witness :
  fst (shouldAddCharacter fast "?" 1200 [("?"%char, 1000)])
  = negb (matchesPunctuation "?").
Proof.
  apply punctuation_has_a_longer_lockout. lia.
Defined.

(** X9. A peak of exactly [SIGNAL_THRESHOLD] gets past the first test of
    [decodeAudio] but counts for no marker, in every profile: the call
    leaves [lastDetectedFrequency] and [lastDetectedTime] as they were, an
    idle decoder stays idle and returns [null], and a receiving decoder
    stops receiving only by the timeout. *)
Theorem threshold_peak_confirms_no_marker (cfg : Config) (tick : Tick)
  (s : DecoderState) :
  tickStrength tick = SIGNAL_THRESHOLD ->
  let result := decodeAudio cfg tick s in
  lastDetectedFrequency (snd result) = lastDetectedFrequency s
  /\ lastDetectedTime (snd result) = lastDetectedTime s
  /\ (isReceivingMessage s = false ->
      fst result = None /\ isReceivingMessage (snd result) = false)
  /\ (isReceivingMessage s = true ->
      isReceivingMessage (snd result) = false ->
      timeoutCeiling cfg < dateNow tick - transmissionStartTime s).
Proof.
  intros Hpeak result. subst result.
  destruct (passesGuards cfg tick s) eqn:Hg.
  - rewrite decodeAudio_guarded by assumption. rewrite Hpeak.
    unfold recordDetection. change (SIGNAL_THRESHOLD <? SIGNAL_THRESHOLD) with false.
    cbn iota. unfold decodeDetection.
    change (SIGNAL_THRESHOLD <? SIGNAL_THRESHOLD) with false.
    rewrite !andb_false_r.
    destruct (isReceivingMessage s) eqn:Hrecv; cbn [andb negb].
    + destruct (timeoutCeiling cfg <? dateNow tick - transmissionStartTime s) eqn:E.
      * apply Z.ltb_lt in E.
        destruct (0 <? String.length (messageBuffer s))%nat; fields;
          repeat split; try discriminate; auto.
      * break_step; rewrite ?Hrecv; repeat split; try discriminate; auto.
    + fields. rewrite ?Hrecv. repeat split; try discriminate; auto.
  - rewrite decodeAudio_stopped by assumption. cbn [fst snd].
    repeat split; auto. intros H1 H2. congruence.
Qed.

Lemma threshold_peak_confirms_no_marker_witness :
  let tick := tickAt (snapshot 43 135) 1000 in
  let result := decodeAudio whale tick initialDecoder in
  lastDetectedFrequency (snd result) = lastDetectedFrequency initialDecoder
  /\ lastDetectedTime (snd result) = lastDetectedTime initialDecoder
  /\ (isReceivingMessage initialDecoder = false ->
      fst result = None /\ isReceivingMessage (snd result) = false)
  /\ (isReceivingMessage initialDecoder = true ->
      isReceivingMessage (snd result) = false ->
      timeoutCeiling whale < dateNow tick - transmissionStartTime initialDecoder).
Proof.
  apply (threshold_peak_confirms_no_marker whale (tickAt (snapshot 43 135) 1000)
           initialDecoder).
  vm_compute. reflexivity.
Defined.

(** * Further properties of the encoder *)

Lemma alterAll_voice (f : Voice -> Voice) (active : list ActiveOscillator) :
  (forall v, f (f v) = f v) ->
  forall ctx handle slot v,
    voiceAt ctx handle slot = Some v ->
    voiceAt (fold_left (fun ctx item => alterVoice f (ao_handle item) (ao_slot item) ctx)
                       active ctx) handle slot
    = Some (if tracked active handle slot then f v else v).
Proof.
  intros Hidem.
  induction active as [|item active IH]; intros ctx handle slot v Hv;
    [exact Hv|].
  cbn [fold_left].
  change (tracked (item :: active) handle slot)
    with (Nat.eqb (ao_handle item) handle && slot_eqb (ao_slot item) slot
          || tracked active handle slot).
  pose proof (voiceAt_alterVoice f (ao_handle item) (ao_slot item) ctx
                handle slot) as Hstep.
  rewrite Hv in Hstep. cbn [option_map] in Hstep.
  destruct (Nat.eqb (ao_handle item) handle && slot_eqb (ao_slot item) slot).
  - rewrite (IH _ handle slot (f v) Hstep). cbn [orb]. rewrite Hidem.
    destruct (tracked active handle slot); reflexivity.
  - rewrite (IH _ handle slot v Hstep). cbn [orb]. reflexivity.
Qed.

Lemma alterAll_missing (f : Voice -> Voice) (active : list ActiveOscillator) :
  forall ctx handle slot,
    voiceAt ctx handle slot = None ->
    voiceAt (fold_left (fun ctx item => alterVoice f (ao_handle item) (ao_slot item) ctx)
                       active ctx) handle slot = None.
Proof.
  induction active as [|item active IH]; intros ctx handle slot Hv; [exact Hv|].
  cbn [fold_left]. apply IH. rewrite voiceAt_alterVoice, Hv.
  destruct (_ && _); reflexivity.
Qed.

Lemma stopVoiceNow_idempotent (v : Voice) : stopVoiceNow (stopVoiceNow v) = stopVoiceNow v.
Proof. unfold stopVoiceNow. destruct (osc_start v) eqn:E; cbn; rewrite ?E; reflexivity. Qed.

Lemma muteVoice_idempotent (v : Voice) : muteVoice (muteVoice v) = muteVoice v.
Proof. reflexivity. Qed.

(** X10. [pauseTransmission] touches nothing but the gain of the tracked
    oscillators: in the audio graph a voice that [activeOscillators] does
    not track is left exactly as it was, and a tracked one keeps its
    frequency and its scheduled start and stop; a call made while already
    paused changes neither the graph nor the pause state. *)
Theorem pauseTransmission_frame (now : Q) (ctx : AudioContext)
  (tx : TransmissionState) (handle : nat) (slot : Slot) :
  let paused := pauseTransmission now ctx tx in
  (tracked (activeOscillators tx) handle slot = false ->
   voiceAt (fst paused) handle slot = voiceAt ctx handle slot)
  /\ (forall v, voiceAt ctx handle slot = Some v ->
                exists v', voiceAt (fst paused) handle slot = Some v'
                           /\ osc_frequency v' = osc_frequency v
                           /\ osc_start v' = osc_start v
                           /\ osc_stop v' = osc_stop v)
  /\ (isTransmissionPaused tx = true -> paused = (ctx, tx)).
Proof.
  intros paused. subst paused. unfold pauseTransmission.
  destruct (isTransmissionPaused tx); cbn [negb fst snd].
  - split; [reflexivity|]. split; [|reflexivity].
    intros v Hv. exists v. auto.
  - unfold muteAll. split; [|split; [|discriminate]].
    + intros Huntracked. destruct (voiceAt ctx handle slot) as [v|] eqn:Hv.
      * rewrite (alterAll_voice muteVoice _ muteVoice_idempotent _ _ _ v Hv),
          Huntracked. reflexivity.
      * apply alterAll_missing. exact Hv.
    + intros v Hv.
      rewrite (alterAll_voice muteVoice _ muteVoice_idempotent _ _ _ v Hv).
      destruct (tracked _ _ _); eexists; split; try reflexivity; auto.
Qed.

(** X11. [stopAllOscillators] empties [activeOscillators] and leaves the
    pause flag and the paused time alone; in the audio graph every tracked
    voice that was started gets the stop time 0 and keeps its frequency, its
    start and its gain envelope, and every other voice is left exactly as it
    was. *)
Theorem stopAllOscillators_effect (ctx : AudioContext) (tx : TransmissionState)
  (handle : nat) (slot : Slot) :
  let stopped := stopAllOscillators ctx tx in
  activeOscillators (snd stopped) = []
  /\ isTransmissionPaused (snd stopped) = isTransmissionPaused tx
  /\ totalPausedDuration (snd stopped) = totalPausedDuration tx
  /\ (tracked (activeOscillators tx) handle slot = false ->
      voiceAt (fst stopped) handle slot = voiceAt ctx handle slot)
  /\ (forall v start,
         tracked (activeOscillators tx) handle slot = true ->
         voiceAt ctx handle slot = Some v ->
         osc_start v = Some start ->
         voiceAt (fst stopped) handle slot
         = Some {| osc_frequency := osc_frequency v;
                   gain_events := gain_events v;
                   osc_start := Some start;
                   osc_stop := Some 0%Q |}).
Proof.
  intros stopped. subst stopped. unfold stopAllOscillators. cbn [fst snd activeOscillators
    isTransmissionPaused totalPausedDuration].
  repeat split.
  - intros Huntracked. destruct (voiceAt ctx handle slot) as [v|] eqn:Hv.
    + rewrite (alterAll_voice stopVoiceNow _ stopVoiceNow_idempotent _ _ _ v Hv),
        Huntracked. reflexivity.
    + apply alterAll_missing. exact Hv.
  - intros v start Htracked Hv Hstart.
    rewrite (alterAll_voice stopVoiceNow _ stopVoiceNow_idempotent _ _ _ v Hv),
      Htracked.
    unfold stopVoiceNow. rewrite Hstart. reflexivity.
Qed.

(** X12. Pausing and resuming account for the paused time: from an unpaused
    state, a pause at [t1] followed by a resume at [t2] adds exactly
    [t2 - t1] to [getTotalPausedDuration] and leaves the transmission
    unpaused; a second pause in between changes nothing, the first pause
    time stands; and a resume while not paused changes nothing. *)
Theorem pause_resume_accounting (t1 t1' t2 t3 : Q) (ctx : AudioContext)
  (tx : TransmissionState) :
  isTransmissionPaused tx = false ->
  let paused := pauseTransmission t1 ctx tx in
  let resumed := resumeTransmission t2 (snd paused) in
  pauseTransmission t1' (fst paused) (snd paused) = paused
  /\ getTransmissionPauseState (snd paused) = true
  /\ getTransmissionPauseState resumed = false
  /\ getTotalPausedDuration resumed = (getTotalPausedDuration tx + (t2 - t1))%Q
  /\ resumeTransmission t3 resumed = resumed
  /\ resumeTransmission t3 tx = tx.
Proof.
  intros Hrun paused resumed. subst paused resumed.
  unfold pauseTransmission, resumeTransmission, getTransmissionPauseState,
    getTotalPausedDuration.
  rewrite Hrun. cbn. repeat split.
Qed.

Lemma pause_resume_accounting_witness :
  let paused := pauseTransmission 1000 runningContext initialTransmission in
  let resumed := resumeTransmission 4500 (snd paused) in
  pauseTransmission 2000 (fst paused) (snd paused) = paused
  /\ getTransmissionPauseState (snd paused) = true
  /\ getTransmissionPauseState resumed = false
  /\ getTotalPausedDuration resumed
     = (getTotalPausedDuration initialTransmission + (4500 - 1000))%Q
  /\ resumeTransmission 9000 resumed = resumed
  /\ resumeTransmission 9000 initialTransmission = initialTransmission.
Proof.
  apply (pause_resume_accounting 1000 2000 4500 9000 runningContext
           initialTransmission).
  reflexivity.
Defined.

(** ** The encoder in closed form *)

Lemma voiceAt_at_length (ctx : AudioContext) (pre : list NodeSet) (set : NodeSet)
  (rest : list NodeSet) (slot : Slot) :
  voiceAt (withNodes ctx (pre ++ set :: rest)) (length pre) slot
  = match slot with First => Some (primary set) | Second => parallel set end.
Proof.
  unfold voiceAt. rewrite ctx_nodes_withNodes.
  rewrite list_lookup_middle by reflexivity. reflexivity.
Qed.

Lemma scheduleLoop_exact (cfg : Config) (ctx : AudioContext) (characters : list ascii) :
  forall pre currentTime tx,
    pauseControl cfg && isTransmissionPaused tx = false ->
    scheduleLoop cfg (nodesFor cfg (length pre) characters) currentTime
      (withNodes ctx
         (pre ++ List.map (fun char => createNodeSet cfg (charToFrequency cfg char))
                          characters)) tx
    = (Some (loopEnd cfg currentTime (length characters)),
       withNodes ctx
         (pre ++ scheduledSets cfg currentTime
                   (List.map (fun char => createNodeSet cfg (charToFrequency cfg char))
                             characters)),
       if pauseControl cfg then
         {| isTransmissionPaused := isTransmissionPaused tx;
            pauseStartTime := pauseStartTime tx;
            totalPausedDuration := totalPausedDuration tx;
            activeOscillators :=
              activeOscillators tx
              ++ trackedTones cfg (length pre) currentTime (length characters) |}
       else tx).
Proof.
  induction characters as [|char rest IH]; intros pre currentTime tx Hrun.
  - cbn [nodesFor scheduleLoop loopEnd length scheduledSets List.map trackedTones].
    rewrite !app_nil_r. destruct tx; destruct (pauseControl cfg); reflexivity.
  - cbn [nodesFor scheduleLoop loopEnd length scheduledSets List.map trackedTones].
    rewrite Hrun.
    rewrite scheduleNode_at by reflexivity.
    unfold trackNode. cbn [ns_handle]. rewrite voiceAt_at_length.
    set (set1 := scheduleSet cfg currentTime
                   (createNodeSet cfg (charToFrequency cfg char))).
    replace (pre ++ set1 :: List.map
               (fun char => createNodeSet cfg (charToFrequency cfg char)) rest)
      with ((pre ++ [set1]) ++ List.map
               (fun char => createNodeSet cfg (charToFrequency cfg char)) rest)
      by (rewrite <- app_assoc; reflexivity).
    replace (S (length pre)) with (length (pre ++ [set1]))
      by (rewrite length_app; cbn [length]; lia).
    rewrite IH.
    + rewrite <- app_assoc. cbn [app]. f_equal.
      destruct (pauseControl cfg); [|reflexivity].
      cbn [isTransmissionPaused pauseStartTime totalPausedDuration activeOscillators].
      f_equal. unfold createNodeSet. cbn [parallel].
      destruct (USE_PARALLEL_TONES cfg); rewrite <- !app_assoc; reflexivity.
    + destruct (pauseControl cfg); [exact Hrun|reflexivity].
Qed.

(** A run on a usable backend, with the delay of the promise and the
    tracked oscillators spelled out. *)
Lemma encodeText_exact (cfg : Config) (text : string) (ctx : AudioContext)
  (tx : TransmissionState) :
  usable ctx ->
  let n := length (encodedCharacters cfg text) in
  let totalDuration :=
    ((loopEnd cfg (firstCharacterTime cfg ctx) n + (3 # 100) + END_MARKER_DURATION cfg
      - ctx_currentTime ctx) * 1000)%Q in
  encodeText cfg text ctx tx
  = {| settled := Fulfilled (totalDuration + Math_max 100 (totalDuration * (5 # 100)))%Q;
       audio := withNodes (resumed ctx) (ctx_nodes ctx ++ transmissionNodes cfg text ctx);
       transmission :=
         if pauseControl cfg then
           {| isTransmissionPaused := false;
              pauseStartTime := pauseStartTime tx;
              totalPausedDuration := 0;
              activeOscillators :=
                trackedTones cfg (S (length (ctx_nodes ctx)))
                             (firstCharacterTime cfg ctx) n |}
         else tx |}.
Proof.
  intros Husable n totalDuration. subst n totalDuration. unfold encodeText.
  rewrite (ensureAudioContextReady_usable ctx Husable). cbn [negb].
  change (resumed ctx) with (withNodes (resumed ctx) (ctx_nodes ctx)) at 1.
  rewrite playTone_running.
  rewrite createNodes_filter.
  fold (encodedCharacters cfg text).
  rewrite createNodes_supported by apply forallb_filter_same.
  rewrite scheduleLoop_exact
    by (destruct (pauseControl cfg); reflexivity).
  rewrite playTone_running.
  unfold transmissionNodes, firstCharacterTime.
  cbn [ctx_currentTime resumed]. rewrite <- !app_assoc.
  rewrite length_app. cbn [length]. rewrite Nat.add_1_r.
  destruct (pauseControl cfg); reflexivity.
Qed.

Lemma trackedTones_handles (cfg : Config) (n : nat) :
  forall handle t,
    USE_PARALLEL_TONES cfg = false ->
    List.map ao_handle (trackedTones cfg handle t n) = seq handle n
    /\ List.map ao_slot (trackedTones cfg handle t n) = repeat First n.
Proof.
  induction n as [|n IH]; intros handle t Hsingle; [split; reflexivity|].
  cbn [trackedTones seq repeat List.map]. rewrite Hsingle. cbn [app List.map].
  destruct (IH (S handle)
              (t + (CHARACTER_DURATION cfg + CHARACTER_GAP cfg))%Q Hsingle) as [-> ->].
  cbn [ao_handle ao_slot]. split; reflexivity.
Qed.

Lemma trackedTones_stop (cfg : Config) (ctx : AudioContext) (n : nat) :
  forall pre sets handle t,
    length sets = n ->
    handle = length pre ->
    forall rest,
    Forall (fun item =>
              exists v,
                voiceAt (withNodes ctx (pre ++ scheduledSets cfg t sets ++ rest))
                        (ao_handle item) First = Some v
                /\ osc_stop v = Some (stopTime item)
                /\ (exists start, osc_start v = Some start))
           (trackedTones cfg handle t n).
Proof.
  induction n as [|n IH]; intros pre sets handle t Hlen -> rest; [constructor|].
  destruct sets as [|set sets]; [discriminate Hlen|]. injection Hlen as Hlen.
  cbn [trackedTones scheduledSets].
  set (set1 := scheduleSet cfg t set).
  assert (Hlater :
    Forall (fun item =>
              exists v,
                voiceAt (withNodes ctx
                   (pre ++ (set1 :: scheduledSets cfg
                     (t + (CHARACTER_DURATION cfg + CHARACTER_GAP cfg))%Q sets) ++ rest))
                   (ao_handle item) First = Some v
                /\ osc_stop v = Some (stopTime item)
                /\ (exists start, osc_start v = Some start))
           (trackedTones cfg (S (length pre))
              (t + (CHARACTER_DURATION cfg + CHARACTER_GAP cfg))%Q n)).
  { replace (pre ++ (set1 :: scheduledSets cfg
               (t + (CHARACTER_DURATION cfg + CHARACTER_GAP cfg))%Q sets) ++ rest)
      with ((pre ++ [set1]) ++ scheduledSets cfg
               (t + (CHARACTER_DURATION cfg + CHARACTER_GAP cfg))%Q sets ++ rest)
      by (rewrite <- app_assoc; reflexivity).
    apply IH; [exact Hlen|]. rewrite length_app. cbn [length]. lia. }
  apply Forall_cons.
  - cbn [ao_handle stopTime app]. rewrite voiceAt_at_length.
    eexists. split; [reflexivity|]. subst set1.
    cbn [scheduleSet primary scheduleVoice osc_stop osc_start]. eauto.
  - apply Forall_app. split; [|exact Hlater].
    destruct (USE_PARALLEL_TONES cfg); [|constructor].
    apply Forall_cons; [|constructor].
    cbn [ao_handle stopTime app]. rewrite voiceAt_at_length.
    eexists. split; [reflexivity|]. subst set1.
    cbn [scheduleSet primary scheduleVoice osc_stop osc_start]. eauto.
Qed.

Lemma tracked_handle (active : list ActiveOscillator) (handle : nat) (slot : Slot) :
  tracked active handle slot = true -> In handle (List.map ao_handle active).
Proof.
  unfold tracked. rewrite existsb_exists. intros (item & Hin & Hsame).
  apply andb_true_iff in Hsame as [Hhandle _]. apply Nat.eqb_eq in Hhandle.
  subst handle. apply in_map. exact Hin.
Qed.

Lemma untracked_outside (active : list ActiveOscillator) (low n handle : nat)
  (slot : Slot) :
  List.map ao_handle active = seq low n ->
  (handle < low \/ low + n <= handle)%nat ->
  tracked active handle slot = false.
Proof.
  intros Hhandles Hout. destruct (tracked active handle slot) eqn:E; [|reflexivity].
  apply tracked_handle in E. rewrite Hhandles in E. apply in_seq in E. lia.
Qed.

Lemma tracked_inside (active : list ActiveOscillator) (low n handle : nat) :
  List.map ao_handle active = seq low n ->
  List.map ao_slot active = repeat First n ->
  (low <= handle < low + n)%nat ->
  exists item, In item active /\ ao_handle item = handle /\ ao_slot item = First
               /\ tracked active handle First = true.
Proof.
  intros Hhandles Hslots Hin.
  assert (Hmem : In handle (List.map ao_handle active))
    by (rewrite Hhandles; apply in_seq; lia).
  apply in_map_iff in Hmem as (item & Hhandle & Hitem).
  assert (Hslot : ao_slot item = First).
  { apply (repeat_spec n First). rewrite <- Hslots. apply in_map. exact Hitem. }
  exists item. repeat split; try assumption.
  unfold tracked. apply existsb_exists. exists item. split; [exact Hitem|].
  rewrite Hhandle, Hslot, Nat.eqb_refl. reflexivity.
Qed.

(** X13. What the whale [encodeText] leaves in [activeOscillators] on a
    usable backend: one entry per character tone, in the order of the
    schedule, for the oscillator of that tone, with the stop time that was
    scheduled for it; the oscillators of the start marker and of the end
    marker, which [playTone] creates, are never tracked. *)
Theorem encodeText_tracks_character_tones (text : string) (ctx : AudioContext)
  (tx : TransmissionState) :
  usable ctx ->
  let run := encodeText whale text ctx tx in
  let active := activeOscillators (transmission run) in
  let n := length (encodedCharacters whale text) in
  List.map ao_handle active = seq (S (length (ctx_nodes ctx))) n
  /\ List.map ao_slot active = repeat First n
  /\ Forall (fun item =>
               exists v,
                 voiceAt (audio run) (ao_handle item) First = Some v
                 /\ osc_stop v = Some (stopTime item)
                 /\ (exists start, osc_start v = Some start)) active
  /\ (forall slot, tracked active (length (ctx_nodes ctx)) slot = false)
  /\ (forall slot, tracked active (length (ctx_nodes ctx) + n + 1) slot = false).
Proof.
  intros Husable run active n. subst run active n.
  rewrite (encodeText_exact whale text ctx tx Husable).
  cbn [transmission audio pauseControl whale activeOscillators].
  destruct (trackedTones_handles whale (length (encodedCharacters whale text))
              (S (length (ctx_nodes ctx))) (firstCharacterTime whale ctx) eq_refl)
    as [Hhandles Hslots].
  split; [exact Hhandles|]. split; [exact Hslots|]. split; [|split].
  - unfold transmissionNodes. rewrite app_assoc.
    replace (S (length (ctx_nodes ctx)))
      with (length (ctx_nodes ctx ++
                    [playTone_nodes whale (START_FREQUENCY whale)
                       (START_MARKER_DURATION whale)
                       (ctx_currentTime ctx + (3 # 100))%Q (VOLUME whale)]))
      by (rewrite length_app; cbn [length]; lia).
    apply trackedTones_stop; [apply length_map|reflexivity].
  - intros slot. apply (untracked_outside _ _ _ _ _ Hhandles). lia.
  - intros slot. apply (untracked_outside _ _ _ _ _ Hhandles). lia.
Qed.

Lemma encodeText_tracks_character_tones_witness :
  let run := encodeText whale "HI" runningContext initialTransmission in
  let active := activeOscillators (transmission run) in
  List.map ao_handle active = [1; 2]%nat
  /\ tracked active 0 First = false
  /\ tracked active 3 First = false.
Proof.
  pose proof (encodeText_tracks_character_tones "HI" runningContext
                initialTransmission (or_introl eq_refl))
    as (Hhandles & _ & _ & Hstart & Hend).
  split; [exact Hhandles|]. split; [exact (Hstart First)|exact (Hend First)].
Defined.

(** X14. Neither pause nor stop reaches the markers of a whale
    transmission.  After [encodeText] on a usable backend, a
    [pauseTransmission] or a [stopAllOscillators] leaves the start marker
    and the end marker exactly as scheduled, while [stopAllOscillators]
    gives every character tone the stop time 0. *)
Theorem markers_escape_pause_and_stop (text : string) (ctx : AudioContext)
  (tx : TransmissionState) (now : Q) :
  usable ctx ->
  let run := encodeText whale text ctx tx in
  let n := length (encodedCharacters whale text) in
  let first := length (ctx_nodes ctx) in
  let paused := fst (pauseTransmission now (audio run) (transmission run)) in
  let stopped := fst (stopAllOscillators (audio run) (transmission run)) in
  (forall handle slot,
      handle = first \/ handle = (first + n + 1)%nat ->
      voiceAt paused handle slot = voiceAt (audio run) handle slot
      /\ voiceAt stopped handle slot = voiceAt (audio run) handle slot)
  /\ (exists v, voiceAt (audio run) first First = Some v
                /\ osc_frequency v = START_FREQUENCY whale)
  /\ (exists v, voiceAt (audio run) (first + n + 1) First = Some v
                /\ osc_frequency v = END_FREQUENCY whale)
  /\ (forall handle,
         (first < handle <= first + n)%nat ->
         exists v, voiceAt stopped handle First = Some v
                   /\ osc_stop v = Some 0%Q).
Proof.
  intros Husable run n first paused stopped.
  assert (Htracks :
    List.map ao_handle (activeOscillators (transmission run)) = seq (S first) n
    /\ List.map ao_slot (activeOscillators (transmission run)) = repeat First n
    /\ Forall (fun item =>
                 exists v,
                   voiceAt (audio run) (ao_handle item) First = Some v
                   /\ osc_stop v = Some (stopTime item)
                   /\ (exists start, osc_start v = Some start))
              (activeOscillators (transmission run))
    /\ isTransmissionPaused (transmission run) = false
    /\ ctx_nodes (audio run) = ctx_nodes ctx ++ transmissionNodes whale text ctx).
  { subst run n first. rewrite (encodeText_exact whale text ctx tx Husable).
    cbn [transmission audio pauseControl whale activeOscillators
         isTransmissionPaused].
    destruct (trackedTones_handles whale (length (encodedCharacters whale text))
                (S (length (ctx_nodes ctx))) (firstCharacterTime whale ctx) eq_refl)
      as [Hhandles Hslots].
    split; [exact Hhandles|]. split; [exact Hslots|].
    split; [|split; reflexivity].
    unfold transmissionNodes. rewrite app_assoc.
    replace (S (length (ctx_nodes ctx)))
      with (length (ctx_nodes ctx ++
                    [playTone_nodes whale (START_FREQUENCY whale)
                       (START_MARKER_DURATION whale)
                       (ctx_currentTime ctx + (3 # 100))%Q (VOLUME whale)]))
      by (rewrite length_app; cbn [length]; lia).
    apply trackedTones_stop; [apply length_map|reflexivity]. }
  destruct Htracks as (Hhandles & Hslots & Hstops & Hunpaused & Hnodes).
  split; [|split; [|split]].
  - intros handle slot Hmarker.
    assert (Huntracked :
      tracked (activeOscillators (transmission run)) handle slot = false).
    { apply (untracked_outside _ _ _ _ _ Hhandles). lia. }
    subst paused stopped. unfold pauseTransmission, stopAllOscillators, muteAll.
    rewrite Hunpaused. cbn [negb fst].
    destruct (voiceAt (audio run) handle slot) as [v|] eqn:Hv.
    + rewrite (alterAll_voice muteVoice _ muteVoice_idempotent _ _ _ v Hv),
        (alterAll_voice stopVoiceNow _ stopVoiceNow_idempotent _ _ _ v Hv),
        Huntracked.
      split; reflexivity.
    + rewrite (alterAll_missing muteVoice _ _ _ _ Hv),
        (alterAll_missing stopVoiceNow _ _ _ _ Hv).
      split; reflexivity.
  - unfold voiceAt. rewrite Hnodes. unfold transmissionNodes. subst first.
    cbn [app]. rewrite list_lookup_middle by reflexivity.
    eexists. split; reflexivity.
  - unfold voiceAt. rewrite Hnodes. unfold transmissionNodes. subst first n.
    rewrite !app_assoc.
    rewrite (list_lookup_middle _ [] _ (length (ctx_nodes ctx)
               + length (encodedCharacters whale text) + 1)).
    + eexists. split; reflexivity.
    + rewrite !length_app, length_scheduledSets, length_map. cbn [length]. lia.
  - intros handle Hin.
    destruct (tracked_inside _ _ _ handle Hhandles Hslots) as
      (item & Hitem & Hhandle & Hslot & Htracked); [lia|].
    rewrite Forall_forall in Hstops.
    destruct (Hstops item Hitem) as (v & Hv & _ & start & Hstart).
    rewrite Hhandle in Hv.
    subst stopped. unfold stopAllOscillators. cbn [fst].
    rewrite (alterAll_voice stopVoiceNow _ stopVoiceNow_idempotent _ _ _ v Hv),
      Htracked.
    eexists. split; [reflexivity|]. unfold stopVoiceNow. rewrite Hstart.
    reflexivity.
Qed.

Lemma markers_escape_pause_and_stop_witness :
  let run := encodeText whale "HI" runningContext initialTransmission in
  let stopped := fst (stopAllOscillators (audio run) (transmission run)) in
  voiceAt stopped 3 First = voiceAt (audio run) 3 First
  /\ (exists v, voiceAt stopped 1 First = Some v /\ osc_stop v = Some 0%Q).
Proof.
  pose proof (markers_escape_pause_and_stop "HI" runningContext
                initialTransmission 0 (or_introl eq_refl))
    as (Hmarkers & _ & _ & Htones).
  split.
  - exact (proj2 (Hmarkers 3%nat First (or_intror eq_refl))).
  - apply (Htones 1%nat). vm_compute. lia.
Defined.

Lemma loopEnd_grows (cfg : Config) (n : nat) :
  (0 < CHARACTER_DURATION cfg)%Q -> (0 < CHARACTER_GAP cfg)%Q ->
  forall t, (t <= loopEnd cfg t n)%Q.
Proof.
  intros Hduration Hgap. induction n as [|n IH]; intros t; cbn [loopEnd]; [lra|].
  specialize (IH (t + (CHARACTER_DURATION cfg + CHARACTER_GAP cfg))%Q). lra.
Qed.

Lemma playTone_nodes_stop (cfg : Config) (frequency : Z)
  (duration startTime volume start ms limit : Q) :
  (startTime + duration <= limit)%Q ->
  ((limit - start) * 1000 < ms)%Q ->
  toneStopsWithin start ms (playTone_nodes cfg frequency duration startTime volume)
  = true.
Proof.
  intros Hle Hlimit.
  assert (Hstop : Qltb ((startTime + duration - start) * 1000) ms = true)
    by (apply Qltb_true; lra).
  unfold toneStopsWithin, stopsWithin, playTone_nodes.
  cbn [primary parallel osc_stop].
  destruct (_ && _ && _); cbn [osc_stop]; rewrite Hstop; reflexivity.
Qed.

Lemma scheduledSets_stop (cfg : Config) (characters : list ascii) :
  (0 < CHARACTER_DURATION cfg)%Q -> (0 < CHARACTER_GAP cfg)%Q ->
  forall t start ms,
    ((loopEnd cfg t (length characters) - start) * 1000 < ms)%Q ->
    forallb (toneStopsWithin start ms)
      (scheduledSets cfg t
         (List.map (fun char => createNodeSet cfg (charToFrequency cfg char)) characters))
    = true.
Proof.
  intros Hduration Hgap.
  induction characters as [|c characters IH]; intros t start ms Hlimit; [reflexivity|].
  cbn [List.map scheduledSets forallb length loopEnd] in *.
  rewrite (IH _ start ms Hlimit), andb_true_r.
  pose proof (loopEnd_grows cfg (length characters) Hduration Hgap
                (t + (CHARACTER_DURATION cfg + CHARACTER_GAP cfg))%Q) as Hgrows.
  assert (Hstop : (t + CHARACTER_DURATION cfg
                   <= loopEnd cfg (t + (CHARACTER_DURATION cfg + CHARACTER_GAP cfg))
                              (length characters))%Q) by lra.
  assert (Hq : Qltb ((t + CHARACTER_DURATION cfg - start) * 1000) ms = true)
    by (apply Qltb_true; lra).
  unfold toneStopsWithin, stopsWithin, scheduleSet, createNodeSet.
  cbn [primary parallel scheduleVoice osc_stop].
  destruct (USE_PARALLEL_TONES cfg);
    cbn [option_map scheduleVoice osc_stop]; rewrite Hq; reflexivity.
Qed.

Lemma Math_max_floor (a b : Q) : (a <= Math_max a b)%Q.
Proof.
  unfold Math_max. destruct (Qltb a b) eqn:E; [|lra].
  apply Qltb_true in E. lra.
Qed.

(** X15. The promise of [encodeText] outlasts the sound.  In both profiles,
    on a usable backend and for every text: the promise resolves, and the
    delay in milliseconds after which it does is longer than the time from
    the audio clock at the call to the scheduled stop of every oscillator
    the call has added, markers and second oscillators included. *)
Theorem encodeText_resolves_after_last_tone (cfg : Config) (text : string)
  (ctx : AudioContext) (tx : TransmissionState) :
  cfg = whale \/ cfg = fast ->
  usable ctx ->
  let run := encodeText cfg text ctx tx in
  let added := drop (length (ctx_nodes ctx)) (ctx_nodes (audio run)) in
  exists ms,
    settled run = Fulfilled ms
    /\ forallb (toneStopsWithin (ctx_currentTime ctx) ms) added = true.
Proof.
  intros Hcfg Husable run added. subst added run.
  destruct (profile_timing cfg Hcfg) as (Hstart & Hend & Hduration & Hgap).
  rewrite (encodeText_exact cfg text ctx tx Husable). cbn [settled audio].
  rewrite ctx_nodes_withNodes, drop_app_length.
  eexists. split; [reflexivity|].
  set (n := length (encodedCharacters cfg text)).
  set (finish := (loopEnd cfg (firstCharacterTime cfg ctx) n + (3 # 100)
                  + END_MARKER_DURATION cfg)%Q).
  set (total := ((finish - ctx_currentTime ctx) * 1000)%Q).
  pose proof (Math_max_floor 100 (total * (5 # 100))) as Hbuffer.
  pose proof (loopEnd_grows cfg n Hduration Hgap (firstCharacterTime cfg ctx)) as Hgrows.
  assert (Hlimit : ((finish - ctx_currentTime ctx) * 1000
                    < total + Math_max 100 (total * (5 # 100)))%Q)
    by (subst total; lra).
  unfold transmissionNodes. cbn [app forallb]. rewrite forallb_app. cbn [forallb].
  rewrite (playTone_nodes_stop cfg _ _ _ _ _ _ finish) by
    (try exact Hlimit; subst finish; unfold firstCharacterTime in *; lra).
  rewrite (playTone_nodes_stop cfg _ _ _ _ _ _ finish) by
    (try exact Hlimit; subst finish n; lra).
  rewrite scheduledSets_stop; try assumption; [reflexivity|].
  fold n. subst total finish. lra.
Qed.

Lemma encodeText_resolves_after_last_tone_witness :
  let run := encodeText fast "HI" runningContext initialTransmission in
  let added := drop (length (ctx_nodes runningContext)) (ctx_nodes (audio run)) in
  exists ms,
    settled run = Fulfilled ms
    /\ forallb (toneStopsWithin (ctx_currentTime runningContext) ms) added = true.
Proof.
  apply (encodeText_resolves_after_last_tone fast "HI" runningContext
           initialTransmission).
  - right. reflexivity.
  - left. reflexivity.
Defined.

Lemma encodeText_same_characters (cfg : Config) (text text' : string)
  (ctx : AudioContext) (tx : TransmissionState) :
  encodedCharacters cfg text = encodedCharacters cfg text' ->
  encodeText cfg text ctx tx = encodeText cfg text' ctx tx.
Proof.
  intros Hsame. destruct (usable_or_unusable ctx) as [Husable | Hunusable].
  - rewrite !encodeText_exact by exact Husable.
    unfold transmissionNodes. rewrite Hsame. reflexivity.
  - rewrite !encodeText_unusable by exact Hunusable. reflexivity.
Qed.

Lemma toUpperCase_idempotent (text : string) :
  toUpperCase (toUpperCase text) = toUpperCase text.
Proof.
  induction text as [|c text IH]; [reflexivity|].
  cbn [toUpperCase]. rewrite toUpperCase_char_idempotent, IH. reflexivity.
Qed.

Lemma split_chars_string_of_list (l : list ascii) :
  split_chars (string_of_list_ascii l) = l.
Proof. apply list_ascii_of_string_of_list_ascii. Qed.

Lemma map_upper_filter (cfg : Config) (l : list ascii) :
  List.map toUpperCase_char (List.filter (supported cfg) (List.map toUpperCase_char l))
  = List.filter (supported cfg) (List.map toUpperCase_char l).
Proof.
  induction l as [|c l IH]; [reflexivity|].
  cbn [List.map List.filter]. destruct (supported cfg (toUpperCase_char c)).
  - cbn [List.map]. rewrite toUpperCase_char_idempotent, IH. reflexivity.
  - exact IH.
Qed.

Lemma filter_idempotent {A : Type} (p : A -> bool) (l : list A) :
  List.filter p (List.filter p l) = List.filter p l.
Proof. apply filter_all, forallb_filter_same. Qed.

(** X16. [encodeText] reads an ASCII text only through the upper-case form
    of its supported characters: the run (audio graph, pause state and
    resolution delay) is the same for the text, for its upper-case form and
    for the text with every unsupported character removed.  An unsupported
    ASCII character leaves no trace in the transmission, not even a gap. *)
Theorem encodeText_reads_supported_upper_case (cfg : Config) (text : string)
  (ctx : AudioContext) (tx : TransmissionState) :
  isASCII text = true ->
  encodeText cfg (toUpperCase text) ctx tx = encodeText cfg text ctx tx
  /\ encodeText cfg (string_of_list_ascii (encodedCharacters cfg text)) ctx tx
     = encodeText cfg text ctx tx.
Proof.
  intros _. split; apply encodeText_same_characters.
  - unfold encodedCharacters. rewrite toUpperCase_idempotent. reflexivity.
  - unfold encodedCharacters at 1.
    rewrite split_chars_toUpperCase, split_chars_string_of_list.
    unfold encodedCharacters. rewrite split_chars_toUpperCase.
    rewrite map_upper_filter. apply filter_idempotent.
Qed.

Lemma encodeText_reads_supported_upper_case_witness :
  encodeText whale (toUpperCase "h~i") runningContext initialTransmission
  = encodeText whale "h~i" runningContext initialTransmission
  /\ encodeText whale (string_of_list_ascii (encodedCharacters whale "h~i"))
       runningContext initialTransmission
     = encodeText whale "h~i" runningContext initialTransmission.
Proof.
  apply (encodeText_reads_supported_upper_case whale "h~i" runningContext
           initialTransmission).
  reflexivity.
Defined.

Lemma Object_get_In {V : Type} (o : list (ascii * V)) (k : ascii) (v : V) :
  Object_get o k = Some v -> In k (List.map fst o).
Proof.
  induction o as [|[k' v'] o IH]; [discriminate|].
  cbn [Object_get List.map fst]. destruct (ascii_eqb k' k) eqn:E.
  - apply ascii_eqb_true in E. intros _. left. exact E.
  - intros H. right. apply IH. exact H.
Qed.

Lemma supported_roundTrips (cfg : Config) (c : ascii) :
  cfg = whale \/ cfg = fast ->
  supported cfg c = true ->
  frequencyToChar cfg (inject_Z (charToFrequency cfg c)) = Some (toUpperCase_char c).
Proof.
  intros Hcfg Hsupported.
  assert (Hkey : In (toUpperCase_char c) (List.map fst (CHAR_FREQUENCIES cfg))).
  { unfold supported, charToFrequency in Hsupported.
    destruct (Object_get (CHAR_FREQUENCIES cfg) (toUpperCase_char c)) as [f|] eqn:E;
      [|discriminate].
    apply (Object_get_In _ _ _ E). }
  pose proof (roundTrips_table cfg Hcfg) as Hall.
  rewrite forallb_forall in Hall. specialize (Hall _ Hkey).
  unfold roundTrips in Hall. rewrite charToFrequency_upper in Hall.
  destruct (frequencyToChar cfg (inject_Z (charToFrequency cfg c))) as [c'|];
    [|discriminate].
  apply ascii_eqb_true in Hall. congruence.
Qed.

(** X17. What is sent is what is heard, tone by tone.  In both profiles, on
    a usable backend and for every ASCII text, supported or not: the start
    marker and the end marker that [encodeText] schedules map to no
    character under [frequencyToChar], and the tones in between map, in
    order, to the upper-case supported characters of the text. *)
Theorem transmitted_tones_decode (cfg : Config) (text : string)
  (ctx : AudioContext) (tx : TransmissionState) :
  cfg = whale \/ cfg = fast ->
  usable ctx ->
  isASCII text = true ->
  let added :=
    drop (length (ctx_nodes ctx)) (ctx_nodes (audio (encodeText cfg text ctx tx))) in
  List.map (fun tone => frequencyToChar cfg (inject_Z (osc_frequency (primary tone))))
           added
  = None :: List.map Some (encodedCharacters cfg text) ++ [None].
Proof.
  intros Hcfg Husable _ added. subst added.
  rewrite (encodeText_exact cfg text ctx tx Husable). cbn [audio].
  rewrite ctx_nodes_withNodes, drop_app_length.
  unfold transmissionNodes. cbn [app List.map]. rewrite map_app. cbn [List.map].
  cbn [playTone_nodes primary osc_frequency].
  destruct (profile_facts cfg Hcfg) as (Hstart & _ & _).
  destruct (profile_bands cfg Hcfg) as [_ Hend].
  unfold startMarkerClear in Hstart.
  apply andb_true_iff in Hstart as [_ Hstart].
  assert (Hnear : forall target, nearFrequency (inject_Z target) target = true).
  { intros target. apply near_bounds. split; lra. }
  f_equal; [|f_equal; [|f_equal]].
  - apply (frequencyToChar_loop_far _ _ _ (Hnear _) Hstart).
  - rewrite <- (List.map_map (fun set => osc_frequency (primary set))
                  (fun f => frequencyToChar cfg (inject_Z f))).
    rewrite frequencies_scheduledSets, List.map_map.
    unfold encodedCharacters. rewrite split_chars_toUpperCase.
    induction (split_chars text) as [|c l IH]; [reflexivity|].
    cbn [List.map List.filter].
    destruct (supported cfg (toUpperCase_char c)) eqn:E; [|exact IH].
    cbn [List.map]. rewrite IH. f_equal.
    rewrite (supported_roundTrips cfg _ Hcfg E), toUpperCase_char_idempotent.
    reflexivity.
  - apply (frequencyToChar_loop_far _ _ _ (Hnear _) Hend).
Qed.

Lemma transmitted_tones_decode_witness :
  let added :=
    drop (length (ctx_nodes runningContext))
         (ctx_nodes (audio (encodeText whale "h~i" runningContext initialTransmission))) in
  List.map (fun tone => frequencyToChar whale (inject_Z (osc_frequency (primary tone))))
           added
  = None :: List.map Some (encodedCharacters whale "h~i") ++ [None].
Proof.
  apply (transmitted_tones_decode whale "h~i" runningContext initialTransmission).
  - left. reflexivity.
  - left. reflexivity.
  - reflexivity.
Defined.

(** * Properties of the Arduino service *)

Lemma sendCommand_outcome (pin : Z) (state : PinState) (duration : Z)
  (writes : bool) (w : Serial) :
  let sent := ArduinoService.sendCommand pin state duration writes w in
  wire (snd sent)
  = wire w ++ (if fst sent then [line (commandText pin state duration)] else [])
  /\ connection (service (snd sent)) = connection (service w)
  /\ exists queued,
       commandQueue (service (snd sent)) = commandQueue (service w) ++ queued.
Proof.
  unfold ArduinoService.sendCommand.
  destruct (ArduinoService.cannotWrite (service w)); [|destruct writes];
    cbn [fst snd wire service connection commandQueue];
    rewrite ?app_nil_r; repeat split; eauto using app_nil_r.
  all: exists []; rewrite app_nil_r; reflexivity.
Qed.

Lemma servoCommand_outcome (command : string) (writes : bool) (w : Serial) :
  let sent := ArduinoService.servoCommand command writes w in
  wire (snd sent) = wire w ++ (if fst sent then [line command] else [])
  /\ service (snd sent) = service w.
Proof.
  unfold ArduinoService.servoCommand.
  destruct (ArduinoService.cannotWrite (service w)); [|destruct writes];
    cbn [fst snd wire service]; rewrite ?app_nil_r; split; reflexivity.
Qed.

Lemma serviceCall_outcome (call : ServiceCall) (w : Serial) :
  let done := serviceCall call w in
  wire (snd done) = wire w ++ acknowledged [call] [fst done]
  /\ exists queued,
       commandQueue (service (snd done)) = commandQueue (service w) ++ queued.
Proof.
  destruct call as [outcome | outcome | pin state duration writes | pin writes
                   | pin writes | pin duration writes | writes | writes | writes];
    cbn [serviceCall acknowledged commandOf].
  - cbn [fst snd wire service]. rewrite app_nil_r. split; [reflexivity|].
    exists []. rewrite app_nil_r. destruct outcome; reflexivity.
  - cbn [fst snd wire service]. rewrite app_nil_r. split; [reflexivity|].
    exists []. rewrite app_nil_r. unfold ArduinoService.disconnect.
    repeat match goal with |- context [if ?b then _ else _] => destruct b end;
      reflexivity.
  - destruct (sendCommand_outcome pin state duration writes w) as (Hwire & _ & Hq).
    split; [|exact Hq]. rewrite Hwire. destruct (fst _); reflexivity.
  - destruct (sendCommand_outcome pin ON 0 writes w) as (Hwire & _ & Hq).
    split; [|exact Hq]. unfold ArduinoService.ledOn. rewrite Hwire.
    destruct (fst _); reflexivity.
  - destruct (sendCommand_outcome pin OFF 0 writes w) as (Hwire & _ & Hq).
    split; [|exact Hq]. unfold ArduinoService.ledOff. rewrite Hwire.
    destruct (fst _); reflexivity.
  - destruct (sendCommand_outcome pin ON duration writes w) as (Hwire & _ & Hq).
    split; [|exact Hq]. unfold ArduinoService.ledFlash. rewrite Hwire.
    destruct (fst _); reflexivity.
  - destruct (servoCommand_outcome "SERVO,START" writes w) as (Hwire & Hs).
    unfold ArduinoService.servoStart. rewrite Hwire, Hs.
    split; [destruct (fst _); reflexivity|]. exists []. apply eq_sym, app_nil_r.
  - destruct (servoCommand_outcome "SERVO,STOP" writes w) as (Hwire & Hs).
    unfold ArduinoService.servoStop. rewrite Hwire, Hs.
    split; [destruct (fst _); reflexivity|]. exists []. apply eq_sym, app_nil_r.
  - destruct (servoCommand_outcome "SERVO,ALERT" writes w) as (Hwire & Hs).
    unfold ArduinoService.servoAlert. rewrite Hwire, Hs.
    split; [destruct (fst _); reflexivity|]. exists []. apply eq_sym, app_nil_r.
Qed.

Lemma acknowledged_cons (call : ServiceCall) (calls : list ServiceCall)
  (result : bool) (results : list bool) :
  acknowledged (call :: calls) (result :: results)
  = acknowledged [call] [result] ++ acknowledged calls results.
Proof.
  cbn [acknowledged]. destruct (commandOf call); [destruct result|]; reflexivity.
Qed.

(** X18. The serial line carries the acknowledged commands and nothing
    else.  Over every sequence of calls to the service ([connect],
    [disconnect], [sendCommand], [ledOn], [ledOff], [ledFlash],
    [servoStart], [servoStop], [servoAlert]), whatever the port does: the
    data written is, in order, one line for each command call that
    resolved to [true]; every call is answered; and [commandQueue] only
    grows, no call takes a command out of it, so that a command queued
    while disconnected is not sent by a later [connect]. *)
Theorem wire_carries_acknowledged_commands (calls : list ServiceCall) (w : Serial) :
  let run := serviceCalls calls w in
  wire (snd run) = wire w ++ acknowledged calls (fst run)
  /\ length (fst run) = length calls
  /\ exists queued,
       commandQueue (service (snd run)) = commandQueue (service w) ++ queued.
Proof.
  revert w. induction calls as [|call calls IH]; intros w.
  - cbn. rewrite app_nil_r. repeat split. exists []. rewrite app_nil_r. reflexivity.
  - cbn [serviceCalls fst snd].
    destruct (serviceCall_outcome call w) as (Hwire & queued & Hq).
    destruct (IH (snd (serviceCall call w))) as (Hwires & Hlen & queued' & Hq').
    cbv zeta in Hwires, Hlen, Hq'.
    split; [|split].
    + rewrite acknowledged_cons, Hwires, Hwire, app_assoc. reflexivity.
    + cbn [length]. rewrite Hlen. reflexivity.
    + exists (queued ++ queued'). rewrite Hq', Hq, app_assoc. reflexivity.
Qed.

(** ** One command, one line *)

Lemma noNewline_append (a b : string) :
  noNewline (a ++ b) = noNewline a && noNewline b.
Proof.
  unfold noNewline. induction a as [|c a IH]; [reflexivity|].
  cbn [String.append list_ascii_of_string forallb]. rewrite IH, andb_assoc.
  reflexivity.
Qed.

Lemma noNewline_uint (d : Decimal.uint) : noNewline (NilEmpty.string_of_uint d) = true.
Proof.
  unfold noNewline. induction d; cbn [NilEmpty.string_of_uint list_ascii_of_string forallb];
    rewrite ?IHd; reflexivity.
Qed.

Lemma noNewline_Number (n : Z) : noNewline (Number_toString n) = true.
Proof.
  unfold Number_toString, NilZero.string_of_int, NilZero.string_of_uint.
  destruct (Z.to_int n) as [d | d].
  - destruct d; try reflexivity; apply noNewline_uint.
  - change (noNewline (String "-" (match d with
                                   | Decimal.Nil => "0"%string
                                   | _ => NilEmpty.string_of_uint d
                                   end)) = true).
    destruct d; try reflexivity;
      unfold noNewline; cbn [list_ascii_of_string forallb];
      apply (noNewline_uint (_ d)).
Qed.

Lemma noNewline_commandText (pin : Z) (state : PinState) (duration : Z) :
  noNewline (commandText pin state duration) = true.
Proof.
  unfold commandText. rewrite !noNewline_append, !noNewline_Number.
  destruct state; reflexivity.
Qed.

Lemma split_newline_nonempty (s : string) : split_newline s <> [].
Proof.
  destruct s as [|c s]; cbn [split_newline]; [discriminate|].
  destruct (ascii_eqb c LF); [discriminate|].
  destruct (split_newline s); discriminate.
Qed.

Lemma split_newline_line (text : string) :
  noNewline text = true ->
  split_newline (line text) = [text; EmptyString].
Proof.
  unfold noNewline, line. induction text as [|c text IH]; intros Hno.
  - reflexivity.
  - cbn [list_ascii_of_string forallb] in Hno.
    apply andb_true_iff in Hno as [Hc Hrest]. apply negb_true_iff in Hc.
    cbn [String.append split_newline]. rewrite Hc, (IH Hrest).
    reflexivity.
Qed.

(** X19. Each command is one line.  When the service can write and the
    write succeeds, [sendCommand] hands the writer one piece of data that
    [split('\n')] cuts into the command text, [PIN,STATE,DURATION], and an
    empty rest: the text holds no newline of its own, whatever the pin and
    the duration, and is closed by one; the queue is left alone.  When the
    service cannot write, it is the same text, without the newline, that is
    queued, and nothing is written. *)
Theorem sendCommand_writes_one_line (pin : Z) (state : PinState) (duration : Z)
  (w : Serial) :
  let text := commandText pin state duration in
  let sent := ArduinoService.sendCommand pin state duration true w in
  split_newline (line text) = [text; EmptyString]
  /\ (ArduinoService.cannotWrite (service w) = false ->
      fst sent = true
      /\ wire (snd sent) = wire w ++ [line text]
      /\ service (snd sent) = service w)
  /\ (ArduinoService.cannotWrite (service w) = true ->
      fst sent = false
      /\ wire (snd sent) = wire w
      /\ commandQueue (service (snd sent)) = commandQueue (service w) ++ [text]).
Proof.
  intros text sent. subst text sent. unfold ArduinoService.sendCommand.
  split; [apply split_newline_line, noNewline_commandText|].
  split; intros ->; repeat split.
Qed.

(** X20. A [disconnect] that fails half-way.  From any state, after a
    successful [connect]: if [port.close()] throws, the reader and the
    writer are gone but [isConnected()] still answers [true], and every
    [sendCommand] resolves to [false], writes nothing and queues its
    command; if [reader.cancel()] throws, nothing was closed, and a
    [sendCommand] still goes out; if nothing throws, [isConnected()]
    answers [false]. *)
Theorem disconnect_that_fails (s0 : ArduinoService) (written : list string)
  (pin : Z) (state : PinState) (duration : Z) (writes : bool) :
  let connected := snd (ArduinoService.connect ArduinoService.PortReady s0) in
  let after outcome :=
    {| service := ArduinoService.disconnect outcome connected; wire := written |} in
  let send outcome :=
    ArduinoService.sendCommand pin state duration writes (after outcome) in
  (ArduinoService.isConnected (service (after ArduinoService.PortCloseThrows)) = true
   /\ fst (send ArduinoService.PortCloseThrows) = false
   /\ wire (snd (send ArduinoService.PortCloseThrows)) = written
   /\ commandQueue (service (snd (send ArduinoService.PortCloseThrows)))
      = commandQueue s0 ++ [commandText pin state duration])
  /\ (service (after ArduinoService.CancelThrows) = connected
      /\ fst (send ArduinoService.CancelThrows) = writes)
  /\ ArduinoService.isConnected (service (after ArduinoService.Closes)) = false.
Proof.
  cbv zeta. unfold ArduinoService.sendCommand. cbn.
  repeat split. destruct writes; reflexivity.
Qed.

(** ** Reading the responses of the board *)

Lemma string_append_nil_r (s : string) : (s ++ EmptyString)%string = s.
Proof. induction s as [|c s IH]; [reflexivity|]. cbn. rewrite IH. reflexivity. Qed.

Lemma string_append_assoc (a b c : string) : ((a ++ b) ++ c = a ++ (b ++ c))%string.
Proof. induction a as [|x a IH]; [reflexivity|]. cbn. rewrite IH. reflexivity. Qed.

Lemma last_app_nonempty {A : Type} (l l' : list A) (d : A) :
  l' <> [] -> last (l ++ l') d = last l' d.
Proof.
  intros Hne. destruct (exists_last Hne) as (l0 & x & ->).
  rewrite app_assoc, !last_last. reflexivity.
Qed.

(** Splitting a text that goes on: the lines that were complete stay, and
    the rest is split together with what follows. *)
Lemma split_newline_append (a b : string) :
  split_newline (a ++ b)
  = removelast (split_newline a)
    ++ split_newline
         (last (split_newline a) EmptyString ++ b).
Proof.
  induction a as [|c a IH]; [reflexivity|].
  cbn [String.append split_newline].
  destruct (ascii_eqb c LF) eqn:Ec.
  - rewrite IH.
    destruct (split_newline a) as [|first lines] eqn:E;
      [exfalso; exact (split_newline_nonempty a E)|].
    reflexivity.
  - rewrite IH.
    destruct (split_newline a) as [|first lines] eqn:E;
      [exfalso; exact (split_newline_nonempty a E)|].
    destruct lines as [|second lines].
    + cbn [removelast last app String.append split_newline].
      rewrite Ec. reflexivity.
    + cbn [removelast last app]. reflexivity.
Qed.

Lemma noNewline_single (s : string) :
  noNewline s = true -> split_newline s = [s].
Proof.
  unfold noNewline. induction s as [|c s IH]; intros Hno; [reflexivity|].
  cbn [list_ascii_of_string forallb] in Hno.
  apply andb_true_iff in Hno as [Hc Hrest]. apply negb_true_iff in Hc.
  cbn [split_newline]. rewrite Hc, (IH Hrest). reflexivity.
Qed.

Lemma split_newline_noNewline (s : string) :
  Forall (fun text => noNewline text = true) (split_newline s).
Proof.
  induction s as [|c s IH]; [repeat constructor|].
  cbn [split_newline].
  destruct (ascii_eqb c LF) eqn:Ec.
  - constructor; [reflexivity|exact IH].
  - destruct (split_newline s) as [|first lines];
      [repeat constructor; unfold noNewline; cbn; rewrite Ec; reflexivity|].
    inversion IH as [|? ? Hfirst Hlines]; subst.
    constructor; [|exact Hlines].
    unfold noNewline in *. cbn [list_ascii_of_string forallb].
    rewrite Ec, Hfirst. reflexivity.
Qed.

Lemma last_noNewline (s : string) :
  noNewline (last (split_newline s) EmptyString) = true.
Proof.
  pose proof (split_newline_noNewline s) as Hall.
  destruct (exists_last (split_newline_nonempty s)) as (l & x & E).
  rewrite E in *. rewrite last_last.
  apply Forall_app in Hall as [_ Hx]. inversion Hx; assumption.
Qed.

Lemma removelast_noNewline (s : string) :
  Forall (fun text => noNewline text = true)
         (removelast (split_newline s)).
Proof.
  pose proof (split_newline_noNewline s) as Hall.
  destruct (exists_last (split_newline_nonempty s)) as (l & x & E).
  rewrite E in *. rewrite removelast_last.
  apply Forall_app in Hall as [Hl _]. exact Hl.
Qed.

(** The loop of [listenForData] in closed form. *)
Lemma listen_closed (chunks : list string) :
  forall buffer log,
    noNewline buffer = true ->
    fold_left ArduinoService.listenStep chunks (buffer, log)
    = (last (split_newline (buffer ++ joined chunks)) EmptyString,
       log ++ List.filter trimmedNonEmpty
                (removelast (split_newline (buffer ++ joined chunks)))).
Proof.
  induction chunks as [|chunk chunks IH]; intros buffer log Hno.
  - cbn [fold_left joined fold_right]. rewrite string_append_nil_r.
    rewrite (noNewline_single buffer Hno). cbn [last removelast List.filter].
    rewrite app_nil_r. reflexivity.
  - cbn [fold_left joined fold_right]. unfold ArduinoService.listenStep at 2.
    unfold TextDecoder_decode. cbn [fst snd]. rewrite IH by apply last_noNewline.
    fold (joined chunks). rewrite <- (string_append_assoc buffer chunk (joined chunks)).
    rewrite (split_newline_append (buffer ++ chunk) (joined chunks)).
    rewrite last_app_nonempty by apply split_newline_nonempty.
    rewrite removelast_app by apply split_newline_nonempty.
    rewrite filter_app, app_assoc. reflexivity.
Qed.

(** X21. On an ASCII stream, the responses logged by [listenForData] do
    not depend on how the stream is cut into chunks: the buffer kept at the
    end and the lines logged are those of the whole stream read as one
    chunk.  The buffer never holds a newline, and what is logged are the
    complete lines of the stream that are not blank, each without a newline,
    in order. *)
Theorem listenForData_ignores_chunking (chunks : list string) (s : ArduinoService) :
  Forall (fun chunk => isASCII chunk = true) chunks ->
  let heard := ArduinoService.listenForData chunks s in
  heard = ArduinoService.listenForData [joined chunks] s
  /\ noNewline (fst heard) = true
  /\ Forall (fun response =>
               noNewline response = true
               /\ trimmedNonEmpty response = true) (snd heard)
  /\ (reader (connection s) = true ->
      snd heard
      = List.filter trimmedNonEmpty
          (removelast (split_newline (joined chunks)))).
Proof.
  intros _ heard. subst heard. unfold ArduinoService.listenForData.
  destruct (reader (connection s)); cbn [negb].
  - rewrite !listen_closed by reflexivity.
    cbn [joined fold_right String.append app]. fold (joined chunks).
    rewrite string_append_nil_r. cbn [fst snd].
    split; [reflexivity|]. split; [apply last_noNewline|]. split; [|reflexivity].
    apply Forall_forall. intros response Hin.
    apply filter_In in Hin as [Hin Hvisible]. split; [|exact Hvisible].
    pose proof (removelast_noNewline (joined chunks)) as Hall.
    rewrite Forall_forall in Hall. apply Hall. exact Hin.
  - cbn [fst snd]. repeat split; [constructor|discriminate].
Qed.

Lemma listenForData_ignores_chunking_witness :
  let chunks := ["LED ON: Pi"; "n 13" ++ String LF "LED OFF"]%string in
  let s := snd (ArduinoService.connect ArduinoService.PortReady ArduinoService.initial) in
  ArduinoService.listenForData chunks s = ArduinoService.listenForData [joined chunks] s
  /\ ArduinoService.listenForData chunks s
     = ("LED OFF"%string, ["LED ON: Pin 13"%string]).
Proof.
  intros chunks s.
  assert (Hascii : Forall (fun chunk => isASCII chunk = true) chunks)
    by (repeat constructor).
  split.
  - exact (proj1 (listenForData_ignores_chunking chunks s Hascii)).
  - vm_compute. reflexivity.
Defined.
